(** * The COLMAP -> Brush pipeline script, as a shallow embedding

    The program is [3dgs-colmap-brush.py]: one [main] that validates two
    paths, looks for mask files, runs four COLMAP sub-commands and,
    optionally, the Brush trainer, checking between the steps that the
    directories the next step reads were produced.

    The script owns no data structure; everything it does is an
    interaction with the operating system.  The embedding therefore has
    three layers:

    - the Python library functions the script calls ([str.lower],
      [pathlib], [shutil.copy2], [subprocess.run], ...), modelled over a
      finite map from paths to nodes;
    - a state-and-exit monad [M] that threads the world (file system,
      environment, trace of what was done) and carries [sys.exit] and
      uncaught exceptions;
    - [run_command], [count_images] and [main], transcribed statement by
      statement.

    The external programs are not modelled: they are an arbitrary
    function of the world and the command line (a [System]), over which
    every theorem quantifies. *)

From Stdlib Require Import ZArith String Ascii List DecimalString DecimalZ DecimalPos Lia.
From stdpp Require Import base option list gmap strings.

Open Scope Z_scope.
Open Scope string_scope.
Open Scope list_scope.

(** ** Python strings *)

Module Str.

(** [str.lower] on the ASCII range; other bytes are left as they are. *)
Definition lower_ascii (c : ascii) : ascii :=
  let n := nat_of_ascii c in
  if (Nat.leb 65 n && Nat.leb n 90)%bool then ascii_of_nat (n + 32) else c.

Fixpoint lower (s : string) : string :=
  match s with
  | EmptyString => EmptyString
  | String c r => String (lower_ascii c) (lower r)
  end.

(** [sep.join(l)]. *)
Definition join (sep : string) (l : list string) : string :=
  String.concat sep l.

(** [str(n)] for an [int]. *)
Definition str_int (z : Z) : string :=
  NilZero.string_of_int (Z.to_int z).

(** [int(s)], used only to say that [str_int] loses nothing. *)
Definition int_str (s : string) : option Z :=
  Z.of_int <$> NilZero.int_of_string s.

(** [s.rfind('.')]. *)
Fixpoint rfind_dot (s : string) : option nat :=
  match s with
  | EmptyString => None
  | String c r =>
      match rfind_dot r with
      | Some i => Some (S i)
      | None => if Ascii.eqb c "." then Some 0%nat else None
      end
  end.

(** [s.split(sep)] for a one-character separator. *)
Fixpoint split_on (sep : ascii) (s : string) : list string :=
  match s with
  | EmptyString => [EmptyString]
  | String c r =>
      if Ascii.eqb c sep then EmptyString :: split_on sep r
      else match split_on sep r with
           | [] => [String c EmptyString]
           | h :: t => String c h :: t
           end
  end.

(** [c in s]. *)
Fixpoint mem (c : ascii) (s : string) : bool :=
  match s with
  | EmptyString => false
  | String d r => Ascii.eqb c d || mem c r
  end.

(** [fnmatch.fnmatchcase(name, pat)] for patterns built from literal
    characters, [*] and [?].  Bracket expressions are not interpreted:
    the claims that go through a pattern take an extension without
    pattern characters (see [plain_ext]). *)
Fixpoint fnmatchcase_pat (pat : string) : string → bool :=
  match pat with
  | EmptyString => λ name, if name is EmptyString then true else false
  | String p pat' =>
      if Ascii.eqb p "*" then
        fix star (name : string) : bool :=
          fnmatchcase_pat pat' name
          || match name with
             | EmptyString => false
             | String _ name' => star name'
             end
      else if Ascii.eqb p "?" then
        λ name, match name with
                | EmptyString => false
                | String _ name' => fnmatchcase_pat pat' name'
                end
      else
        λ name, match name with
                | EmptyString => false
                | String c name' => Ascii.eqb p c && fnmatchcase_pat pat' name'
                end
  end.

Definition fnmatchcase (name pat : string) : bool := fnmatchcase_pat pat name.

End Str.

(** ** pathlib (POSIX flavour)

    A path is its tuple of [parts]: [Path("/a/b").parts = ("/", "a", "b")],
    [Path("a/b").parts = ("a", "b")], [Path(".").parts = ()]. *)

Abbreviation Path := (list string).

Module PurePath.

(** [Path(s)]: split at the separators, drop empty and [.] components,
    keep a leading [/] as the anchor. *)
Definition of_string (s : string) : Path :=
  let comps := filter (λ x, x ≠ "" ∧ x ≠ ".") (Str.split_on "/" s) in
  if String.prefix "/" s then "/" :: comps else comps.

(** [str(p)]. *)
Definition str (p : Path) : string :=
  match p with
  | [] => "."
  | "/" :: rest => "/" +:+ Str.join "/" rest
  | _ => Str.join "/" p
  end.

(** [p / s] for a single relative component [s], the only use the
    script makes of the operator. *)
Definition div (p : Path) (s : string) : Path := p ++ [s].

(** [p.name]: the last component, empty for [.] and for the root. *)
Definition name (p : Path) : string :=
  match p with
  | ["/"] => ""
  | _ => List.last p ""
  end.

(** [p.parent]; [.] and the root are their own parents. *)
Definition parent (p : Path) : Path :=
  match p with
  | ["/"] => ["/"]
  | _ => removelast p
  end.

(** [p.suffix]: the part of the name from its last dot on, when that
    dot is neither the first nor the last character of the name. *)
Definition suffix (p : Path) : string :=
  let nm := name p in
  match Str.rfind_dot nm with
  | Some i =>
      if (Nat.ltb 0 i && Nat.ltb i (String.length nm - 1))%bool
      then substring i (String.length nm - i) nm
      else ""
  | None => ""
  end.

End PurePath.

Notation "p </> s" := (PurePath.div p s) (at level 40, left associativity).

(** ** The file system *)

Inductive Node : Type :=
| File (data : string)
| Dir.

Abbreviation FS := (gmap (list string) Node).

(** Python exceptions the script can meet. *)
Inductive exn : Type :=
| FileNotFoundError
| FileExistsError
| NotADirectoryError
| IsADirectoryError
| SameFileError
| PermissionError
| CalledProcessError (returncode : Z).

#[global] Instance Node_eq_dec : EqDecision Node.
Proof. solve_decision. Defined.

#[global] Instance exn_eq_dec : EqDecision exn.
Proof. solve_decision. Defined.

Module FileSystem.

(** [os.stat]: the current directory and the root always exist. *)
Definition stat (fs : FS) (p : Path) : option Node :=
  if bool_decide (p = [] ∨ p = ["/"]) then Some Dir else fs !! p.

Definition path_exists (fs : FS) (p : Path) : bool :=
  if stat fs p is Some _ then true else false.

Definition is_file (fs : FS) (p : Path) : bool :=
  if stat fs p is Some (File _) then true else false.

Definition is_dir (fs : FS) (p : Path) : bool :=
  if stat fs p is Some Dir then true else false.

(** [q] is an entry of directory [d]. *)
Definition is_child (d q : Path) : bool :=
  bool_decide (PurePath.parent q = d ∧ q ≠ d).

Definition children (fs : FS) (d : Path) : list Path :=
  filter (λ q, is_child d q = true) (map_to_list fs).*1.

(** [list(d.iterdir())]. *)
Definition iterdir (fs : FS) (d : Path) : exn + list Path :=
  match stat fs d with
  | Some Dir => inr (children fs d)
  | Some (File _) => inl NotADirectoryError
  | None => inl FileNotFoundError
  end.

(** [list(d.glob(pat))] for a one-component pattern: every entry of
    [d], of whatever kind, whose name matches; nothing when [d] is not
    a directory. *)
Definition glob (fs : FS) (d : Path) (pat : string) : list Path :=
  if is_dir fs d
  then filter (λ q, Str.fnmatchcase (PurePath.name q) pat = true) (children fs d)
  else [].

(** [os.mkdir(p)]. *)
Definition os_mkdir (fs : FS) (p : Path) : exn + FS :=
  match stat fs p with
  | Some _ => inl FileExistsError
  | None =>
      match stat fs (PurePath.parent p) with
      | None => inl FileNotFoundError
      | Some (File _) => inl NotADirectoryError
      | Some Dir => inr (<[p := Dir]> fs)
      end
  end.

(** [p.mkdir(parents=False, exist_ok=exist_ok)]. *)
Definition mkdir_flat (exist_ok : bool) (fs : FS) (p : Path) : exn + FS :=
  match os_mkdir fs p with
  | inr fs' => inr fs'
  | inl FileNotFoundError => inl FileNotFoundError
  | inl e => if (negb exist_ok || negb (is_dir fs p))%bool then inl e else inr fs
  end.

(** [p.mkdir(parents=True, exist_ok=exist_ok)]: pathlib recurses on the
    parent when [os.mkdir] finds it missing; [n] bounds the recursion
    and [mkdir] below starts it at the length of the path, which the
    recursion cannot exceed. *)
Fixpoint mkdir_parents (n : nat) (exist_ok : bool) (fs : FS) (p : Path) : exn + FS :=
  match os_mkdir fs p with
  | inr fs' => inr fs'
  | inl FileNotFoundError =>
      if bool_decide (PurePath.parent p = p) then inl FileNotFoundError
      else match n with
           | O => inl FileNotFoundError
           | S n' =>
               match mkdir_parents n' true fs (PurePath.parent p) with
               | inl e => inl e
               | inr fs1 => mkdir_flat exist_ok fs1 p
               end
           end
  | inl e => if (negb exist_ok || negb (is_dir fs p))%bool then inl e else inr fs
  end.

Definition mkdir (parents exist_ok : bool) (fs : FS) (p : Path) : exn + FS :=
  if parents then mkdir_parents (length p) exist_ok fs p
  else mkdir_flat exist_ok fs p.

(** [shutil.copy2(src, dst)]: into [dst] when [dst] is a directory;
    refuses to copy a file onto itself; the data of [src] replaces
    whatever regular file was at the destination.

    The file system modelled holds regular files and directories, no
    symbolic or hard links, and has no working directory: a file is the
    path that names it.  So the test for copying a file onto itself is
    the equality of the two paths, where [os.path.samefile] compares the
    files behind them, and a write goes to the path it names, where
    [open] follows a link.  The two agree when no link is involved and
    the paths compared are spelled alike (see [spelled_alike] below);
    the statements that assert a copy are made for such paths. *)
Definition copy2 (fs : FS) (src dst : Path) : exn + FS :=
  let dst' := if is_dir fs dst then dst </> PurePath.name src else dst in
  if (bool_decide (src = dst') && path_exists fs src)%bool then inl SameFileError
  else
    match stat fs src with
    | None => inl FileNotFoundError
    | Some Dir => inl IsADirectoryError
    | Some (File data) =>
        match stat fs dst' with
        | Some Dir => inl IsADirectoryError
        | _ =>
            match stat fs (PurePath.parent dst') with
            | Some Dir => inr (<[dst' := File data]> fs)
            | Some (File _) => inl NotADirectoryError
            | None => inl FileNotFoundError
            end
        end
    end.

End FileSystem.

(** ** The world the script runs in *)

Inductive Level : Type := INFO | WARNING | ERROR.

(** How a [subprocess.run] ended: the child's return code, or the
    exception raised because the child could not be started. *)
Inductive SpawnResult : Type :=
| Returned (code : Z)
| SpawnFailed (e : exn).

(** What the script does to its surroundings, in the order it does it.
    A [Spawn] records the command, the [env=] argument, how the child
    ended and the file system it left behind. *)
Inductive Event : Type :=
| Log (lvl : Level) (msg : string)
| Spawn (cmd : list string) (env : option (gmap string string))
        (r : SpawnResult) (fs_after : FS)
| Mkdir (p : Path) (parents exist_ok : bool)
| Copy (src dst : Path)
| Which (cmd : string).

Record World : Type := mkWorld {
  w_fs : FS;
  w_environ : gmap string string;
  w_trace : list Event
}.

#[global] Instance Level_eq_dec : EqDecision Level.
Proof. solve_decision. Defined.

#[global] Instance SpawnResult_eq_dec : EqDecision SpawnResult.
Proof. solve_decision. Defined.

#[global] Instance Event_eq_dec : EqDecision Event.
Proof. solve_decision. Defined.

#[global] Instance World_eq_dec : EqDecision World.
Proof. solve_decision. Defined.

Definition emit (e : Event) (w : World) : World :=
  mkWorld (w_fs w) (w_environ w) (w_trace w ++ [e]).

Definition set_fs (fs : FS) (w : World) : World :=
  mkWorld fs (w_environ w) (w_trace w).

(** Why a child could not be started. *)
Inductive StartError : Type := ENOENT | EACCES.

Definition start_exn (e : StartError) : exn :=
  match e with
  | ENOENT => FileNotFoundError
  | EACCES => PermissionError
  end.

Inductive ProcResult : Type :=
| Exited (code : Z) (fs' : FS)
| CannotStart (e : StartError).

#[global] Instance StartError_eq_dec : EqDecision StartError.
Proof. solve_decision. Defined.

#[global] Instance ProcResult_eq_dec : EqDecision ProcResult.
Proof. solve_decision. Defined.

(** The programs outside the script: what running a command line in a
    given world and environment does, and what [shutil.which] finds.
    Both may depend on everything that happened before, which the world
    records. *)
Record System : Type := mkSystem {
  exec : World → list string → gmap string string → ProcResult;
  which : World → string → bool
}.

(** ** The monad: state, [sys.exit] and uncaught exceptions *)

Inductive Outcome (A : Type) : Type :=
| Normal (a : A) (w : World)
| SysExit (code : Z) (w : World)
| Uncaught (e : exn) (w : World).
Arguments Normal {A} a w.
Arguments SysExit {A} code w.
Arguments Uncaught {A} e w.

#[global] Instance Outcome_eq_dec {A} `{EqDecision A} : EqDecision (Outcome A).
Proof. solve_decision. Defined.

Definition M (A : Type) : Type := World → Outcome A.

Definition ret {A} (a : A) : M A := λ w, Normal a w.

Definition bind {A B} (m : M A) (k : A → M B) : M B :=
  λ w, match m w with
       | Normal a w' => k a w'
       | SysExit c w' => SysExit c w'
       | Uncaught e w' => Uncaught e w'
       end.

Declare Scope M_scope.
Delimit Scope M_scope with M.
Bind Scope M_scope with M.
Notation "x ← y ; z" := (bind y (λ x, z)) (only parsing) : M_scope.
Notation "x ;; z" := (bind x (λ _, z)) (only parsing) : M_scope.
Open Scope M_scope.

(** The world an outcome ends in, and the status the parent of the
    script sees: 0 after a normal return, the low byte of the argument of
    [sys.exit], 1 after an uncaught exception. *)
Definition final {A} (o : Outcome A) : World :=
  match o with
  | Normal _ w | SysExit _ w | Uncaught _ w => w
  end.

Definition exit_status {A} (o : Outcome A) : Z :=
  match o with
  | Normal _ _ => 0
  | SysExit c _ => c mod 256
  | Uncaught _ _ => 1
  end.

Definition sys_exit {A} (code : Z) : M A := λ w, SysExit code w.
Definition raise {A} (e : exn) : M A := λ w, Uncaught e w.

Definition logger (lvl : Level) (msg : string) : M unit :=
  λ w, Normal () (emit (Log lvl msg) w).

Definition get_fs : M FS := λ w, Normal (w_fs w) w.
Definition get_environ : M (gmap string string) := λ w, Normal (w_environ w) w.

Definition path_exists (p : Path) : M bool :=
  λ w, Normal (FileSystem.path_exists (w_fs w) p) w.

Definition iterdir (d : Path) : M (list Path) :=
  λ w, match FileSystem.iterdir (w_fs w) d with
       | inr l => Normal l w
       | inl e => Uncaught e w
       end.

Definition glob (d : Path) (pat : string) : M (list Path) :=
  λ w, Normal (FileSystem.glob (w_fs w) d pat) w.

Definition mkdir (parents exist_ok : bool) (p : Path) : M unit :=
  λ w, let w1 := emit (Mkdir p parents exist_ok) w in
       match FileSystem.mkdir parents exist_ok (w_fs w) p with
       | inr fs' => Normal () (set_fs fs' w1)
       | inl e => Uncaught e w1
       end.

Definition copy2 (src dst : Path) : M unit :=
  λ w, let w1 := emit (Copy src dst) w in
       match FileSystem.copy2 (w_fs w) src dst with
       | inr fs' => Normal () (set_fs fs' w1)
       | inl e => Uncaught e w1
       end.

Fixpoint for_each {A} (l : list A) (body : A → M unit) : M unit :=
  match l with
  | [] => ret ()
  | x :: l' => body x;; for_each l' body
  end.


(** ** The parsed command line

    [args] as [parser.parse_args()] returns it: [type=Path] options are
    paths, [type=int] options integers, and the options whose default is
    [None] are optional.  The defaults come from a [config] module and
    are whatever value the field holds. *)
Record Args : Type := mkArgs {
  project_dir : Path;
  images_dir : Path;
  colmap_bin : string;
  brush_bin : string;
  masks_dir : option Path;
  mask_ext : string;
  dense_masks_dir : option Path;
  sfm_max_image_size : Z;
  sift_max_num_features : Z;
  undistort_max_image_size : Z;
  camera_model : string;
  single_camera : Z;
  min_num_matches : Z;
  refine_focal_length : Z;
  refine_extra_params : Z;
  refine_principal_point : Z;
  run_brush : Z;
  brush_total_steps : Z;
  brush_max_splats : Z;
  brush_export_every : Z;
  brush_eval_split_every : Z;
  brush_export_name : string;
  cubecl_default_device : option string
}.

(** Truth value of an optional string: [None] and [""] are false. *)
Definition truthy (s : option string) : bool :=
  match s with
  | Some EmptyString | None => false
  | Some _ => true
  end.

Section Script.

Context (sys : System).

Definition shutil_which (cmd : string) : M bool :=
  λ w, Normal (which sys w cmd) (emit (Which cmd) w).

(** [subprocess.run(cmd, check=check, env=env)]: with [env=None] the
    child inherits [os.environ]. *)
Definition subprocess_run (cmd : list string) (check : bool)
    (env : option (gmap string string)) : M Z :=
  λ w, match exec sys w cmd (default (w_environ w) env) with
       | CannotStart e =>
           Uncaught (start_exn e)
             (emit (Spawn cmd env (SpawnFailed (start_exn e)) (w_fs w)) w)
       | Exited code fs' =>
           let w' := set_fs fs' (emit (Spawn cmd env (Returned code) fs') w) in
           if (check && negb (Z.eqb code 0))%bool
           then Uncaught (CalledProcessError code) w'
           else Normal code w'
       end.

(** [run_command], lines 35-51. *)
Definition run_command (cmd : list string) (check : bool)
    (env : option (gmap string string)) : M Z :=
  let cmd_str := Str.join " " cmd in
  λ w,
    match (logger INFO ("Running: " +:+ cmd_str);;
           subprocess_run cmd check env) w with
    | Uncaught (CalledProcessError returncode) w' =>
        (logger ERROR ("Command failed with exit code "
                         +:+ Str.str_int returncode +:+ ": " +:+ cmd_str);;
         sys_exit returncode) w'
    | Uncaught FileNotFoundError w' =>
        (logger ERROR ("Command not found: " +:+ hd "" cmd);;
         sys_exit 1) w'
    | o => o
    end.

(** [count_images], lines 53-56. *)
Definition extensions : gset string :=
  {[ ".jpg"; ".jpeg"; ".png"; ".tif"; ".tiff" ]}.

Definition count_images (directory : Path) : M nat :=
  entries ← iterdir directory;
  fs ← get_fs;
  ret (length (filter (λ p, Str.lower (PurePath.suffix p) ∈ extensions
                             ∧ FileSystem.is_file fs p = true) entries)).

(** *** [main], lines 58-273, cut at the banners of the source *)

Section Main.

Context (args : Args).

(** Lines 108-115 and 206-209: the paths derived from the arguments. *)
Definition db_path : Path := project_dir args </> "database.db".
Definition sparse_dir : Path := project_dir args </> "sparse".
Definition dense_dir : Path := project_dir args </> "dense".
Definition brush_export_dir : Path := project_dir args </> "brush_exports".
Definition brush_data_path : Path := dense_dir </> "0".
Definition brush_images_path : Path := brush_data_path </> "images".
Definition brush_sparse_path : Path := brush_data_path </> "sparse".
Definition brush_masks_path : Path := brush_data_path </> "masks".

(** Line 97. *)
Definition brush_max_resolution : Z := undistort_max_image_size args.

(** CHECKS & SETUP, lines 102-118. *)
Definition checks_and_setup : M unit :=
  images_found ← path_exists (images_dir args);
  (if negb images_found then
     logger ERROR ("IMAGES_DIR does not exist: " +:+ PurePath.str (images_dir args));;
     sys_exit 1
   else ret ());;
  mkdir true true (project_dir args);;
  mkdir false true sparse_dir;;
  mkdir false true dense_dir;;
  logger INFO ("Project: " +:+ PurePath.str (project_dir args));;
  logger INFO ("Images:  " +:+ PurePath.str (images_dir args)).

(** The condition of line 129. *)
Definition is_mask (fs : FS) (p : Path) : Prop :=
  FileSystem.is_file fs p = true
  ∧ Str.lower (PurePath.suffix p) = Str.lower ("." +:+ mask_ext args).

#[global] Instance is_mask_dec fs p : Decision (is_mask fs p).
Proof. unfold is_mask. apply _. Defined.

(** AUTO MASK DETECTION (COLMAP), lines 123-139: the value of
    [colmap_mask_args]. *)
Definition no_colmap_masks : M (list string) :=
  logger INFO "No COLMAP masks configured/found. Continuing without masks.";;
  ret [].

Definition auto_mask_detection : M (list string) :=
  match masks_dir args with
  | Some masks =>
      masks_found ← path_exists masks;
      if masks_found then
        img_count ← count_images (images_dir args);
        entries ← iterdir masks;
        fs ← get_fs;
        let mask_count := length (filter (is_mask fs) entries) in
        if Nat.ltb 0 mask_count then
          logger INFO ("Masks detected for COLMAP: "
                         +:+ Str.str_int (Z.of_nat mask_count)
                         +:+ " mask(s). Using masks for feature extraction.");;
          (if (Nat.ltb 0 img_count && Nat.ltb mask_count img_count)%bool then
             logger WARNING "Fewer masks than images. Images without masks will be processed without masking."
           else ret ());;
          ret ["--ImageReader.mask_path"; PurePath.str masks]
        else
          logger WARNING ("MASKS_DIR exists (" +:+ PurePath.str masks
                            +:+ ") but no files with extension ."
                            +:+ mask_ext args +:+ " found.");;
          ret []
      else no_colmap_masks
  | None => no_colmap_masks
  end.

(** 1) Feature Extraction, lines 145-157. *)
Definition cmd_feature (colmap_mask_args : list string) : list string :=
  [ colmap_bin args; "feature_extractor";
    "--database_path"; PurePath.str db_path;
    "--image_path"; PurePath.str (images_dir args);
    "--ImageReader.single_camera"; Str.str_int (single_camera args);
    "--ImageReader.camera_model"; camera_model args;
    "--SiftExtraction.use_gpu"; "1";
    "--SiftExtraction.max_image_size"; Str.str_int (sfm_max_image_size args);
    "--SiftExtraction.max_num_features"; Str.str_int (sift_max_num_features args) ]
  ++ colmap_mask_args.

Definition feature_extraction (colmap_mask_args : list string) : M unit :=
  logger INFO "1/5 COLMAP: feature extraction";;
  run_command (cmd_feature colmap_mask_args) true None;;
  ret ().

(** 2) Matching, lines 162-168. *)
Definition cmd_match : list string :=
  [ colmap_bin args; "exhaustive_matcher";
    "--database_path"; PurePath.str db_path;
    "--SiftMatching.use_gpu"; "1" ].

Definition matching : M unit :=
  logger INFO "2/5 COLMAP: exhaustive matching";;
  run_command cmd_match true None;;
  ret ().

(** 3) Sparse Reconstruction, lines 173-189. *)
Definition cmd_mapper : list string :=
  [ colmap_bin args; "mapper";
    "--database_path"; PurePath.str db_path;
    "--image_path"; PurePath.str (images_dir args);
    "--output_path"; PurePath.str sparse_dir;
    "--Mapper.min_num_matches"; Str.str_int (min_num_matches args);
    "--Mapper.ba_refine_focal_length"; Str.str_int (refine_focal_length args);
    "--Mapper.ba_refine_extra_params"; Str.str_int (refine_extra_params args);
    "--Mapper.ba_refine_principal_point"; Str.str_int (refine_principal_point args) ].

Definition sparse_reconstruction : M unit :=
  logger INFO "3/5 COLMAP: mapper (sparse SfM)";;
  run_command cmd_mapper true None;;
  model_found ← path_exists (sparse_dir </> "0");
  if negb model_found then
    logger ERROR ("Sparse model not found at " +:+ PurePath.str (sparse_dir </> "0")
                    +:+ ". Mapper may have failed.");;
    sys_exit 1
  else ret ().

(** 4) Undistort for 3DGS/Brush, lines 194-215. *)
Definition cmd_undistort : list string :=
  [ colmap_bin args; "image_undistorter";
    "--image_path"; PurePath.str (images_dir args);
    "--input_path"; PurePath.str (sparse_dir </> "0");
    "--output_path"; PurePath.str dense_dir;
    "--output_type"; "COLMAP";
    "--max_image_size"; Str.str_int (undistort_max_image_size args) ].

Definition undistort : M unit :=
  logger INFO "4/5 COLMAP: image_undistorter (creates dense/0/images + dense/0/sparse)";;
  run_command cmd_undistort true None;;
  images_found ← path_exists brush_images_path;
  sparse_found ← (if negb images_found then ret false
                  else path_exists brush_sparse_path);
  (if (negb images_found || negb sparse_found)%bool then
     logger ERROR ("Expected " +:+ PurePath.str brush_images_path +:+ " and "
                     +:+ PurePath.str brush_sparse_path
                     +:+ " to exist after undistort.");;
     sys_exit 1
   else ret ());;
  logger INFO ("Dataset for Brush: " +:+ PurePath.str brush_data_path).

(** 4b) Optional: Provide dense masks, lines 220-234. *)
Definition provide_dense_masks : M unit :=
  match dense_masks_dir args with
  | Some dense_masks_dir =>
      dir_found ← path_exists dense_masks_dir;
      if dir_found then
        dense_masks ← glob dense_masks_dir ("*." +:+ mask_ext args);
        if dense_masks is [] then
          logger WARNING ("DENSE_MASKS_DIR provided but no *." +:+ mask_ext args
                            +:+ " files found.")
        else
          logger INFO ("Copying undistorted masks into dataset for Brush -> "
                         +:+ PurePath.str brush_masks_path);;
          mkdir false true brush_masks_path;;
          for_each dense_masks
            (λ mask_file, copy2 mask_file (brush_masks_path </> PurePath.name mask_file));;
          logger INFO ("Brush masks ready: "
                         +:+ Str.str_int (Z.of_nat (length dense_masks))
                         +:+ " file(s) copied.")
      else
        logger WARNING ("DENSE_MASKS_DIR set but directory not found: "
                          +:+ PurePath.str dense_masks_dir)
  | None =>
      logger INFO "No undistorted masks configured for Brush (DENSE_MASKS_DIR empty)."
  end.

(** 5) Brush training + export, lines 239-271. *)
Definition cmd_brush : list string :=
  [ brush_bin args; PurePath.str brush_data_path;
    "--total-steps"; Str.str_int (brush_total_steps args);
    "--max-resolution"; Str.str_int brush_max_resolution;
    "--max-splats"; Str.str_int (brush_max_splats args);
    "--eval-split-every"; Str.str_int (brush_eval_split_every args);
    "--export-every"; Str.str_int (brush_export_every args);
    "--export-path"; PurePath.str brush_export_dir;
    "--export-name"; brush_export_name args;
    "--eval-every"; Str.str_int (brush_export_every args);
    "--eval-save-to-disk" ].

(** Lines 250-253: the environment handed to Brush. *)
Definition brush_env (environ : gmap string string) : gmap string string :=
  if truthy (cubecl_default_device args)
  then <["CUBECL_DEFAULT_DEVICE" := default "" (cubecl_default_device args)]> environ
  else environ.

Definition brush_training : M unit :=
  if bool_decide (run_brush args = 1) then
    logger INFO "5/5 BRUSH: train + export";;
    on_path ← shutil_which (brush_bin args);
    bin_found ← (if on_path then ret true
                 else path_exists (PurePath.of_string (brush_bin args)));
    (if negb bin_found then
       logger ERROR ("BRUSH_BIN not found: " +:+ brush_bin args
                       +:+ ". Ensure it is in PATH or provide full path.");;
       sys_exit 1
     else ret ());;
    mkdir true true brush_export_dir;;
    environ ← get_environ;
    (if truthy (cubecl_default_device args) then
       logger INFO ("Using GPU device via CUBECL_DEFAULT_DEVICE="
                      +:+ default "" (cubecl_default_device args))
     else ret ());;
    run_command cmd_brush true (Some (brush_env environ));;
    logger INFO ("Brush exports: " +:+ PurePath.str brush_export_dir)
  else ret ().

(** Lines 120-273: what follows the set-up. *)
Definition pipeline : M unit :=
  colmap_mask_args ← auto_mask_detection;
  feature_extraction colmap_mask_args;;
  matching;;
  sparse_reconstruction;;
  undistort;;
  provide_dense_masks;;
  brush_training;;
  logger INFO "DONE".

Definition main : M unit :=
  checks_and_setup;;
  pipeline.

End Main.

End Script.

Arguments main sys args w : simpl never.

(** ** Observing a run *)

(** One external invocation, as the trace records it. *)
Record Invocation : Type := mkInvocation {
  inv_cmd : list string;
  inv_env : option (gmap string string);
  inv_result : SpawnResult;
  inv_fs : FS
}.

#[global] Instance Invocation_eq_dec : EqDecision Invocation.
Proof. solve_decision. Defined.

Definition invocation_of (e : Event) : option Invocation :=
  match e with
  | Spawn cmd env r fs => Some (mkInvocation cmd env r fs)
  | _ => None
  end.

Definition invocations (t : list Event) : list Invocation := omap invocation_of t.

(** The events a computation started in [w] added to the trace. *)
Definition since {A} (w : World) (o : Outcome A) : list Event :=
  drop (length (w_trace w)) (w_trace (final o)).

(** A run reaches completion when [main] returns. *)
Definition completes {A} (o : Outcome A) : Prop := ∃ a w, o = Normal a w.

(** A child that did not do its work: it returned a non-zero code, or
    its executable was not found. *)
Definition failed (r : SpawnResult) : Prop :=
  match r with
  | Returned c => c ≠ 0
  | SpawnFailed FileNotFoundError => True
  | SpawnFailed _ => False
  end.

(** The status [run_command] exits with after a failed child, and the
    message it logs. *)
Definition failure_code (r : SpawnResult) : Z :=
  match r with
  | Returned c => c
  | SpawnFailed _ => 1
  end.

Definition failure_message (cmd : list string) (r : SpawnResult) : string :=
  match r with
  | Returned c =>
      "Command failed with exit code " +:+ Str.str_int c +:+ ": " +:+ Str.join " " cmd
  | SpawnFailed _ => "Command not found: " +:+ hd "" cmd
  end.

Definition is_spawn (e : Event) : Prop := is_Some (invocation_of e).

Definition failed_spawn (e : Event) : Prop :=
  match e with
  | Spawn _ _ r _ => failed r
  | _ => False
  end.

Definition error_log (e : Event) : Prop :=
  match e with
  | Log ERROR _ => True
  | _ => False
  end.

(** Nothing went wrong at this event. *)
Definition calm (e : Event) : Prop := ¬ failed_spawn e ∧ ¬ error_log e.

(** The abort discipline of the script: the events a computation adds
    are calm, except that an exit is announced by an error message, and
    an exit caused by a failed child has that child's invocation right
    before the message and its code as status. *)
Definition abort_shape {A} (evs : list Event) (o : Outcome A) : Prop :=
  match o with
  | Normal _ _ | Uncaught _ _ => Forall calm evs
  | SysExit c _ =>
      ∃ evs0, Forall calm evs0 ∧
        ((∃ msg, evs = evs0 ++ [Log ERROR msg] ∧ c = 1)
         ∨ (∃ cmd env r fs,
              evs = evs0 ++ [Spawn cmd env r fs; Log ERROR (failure_message cmd r)]
              ∧ failed r ∧ c = failure_code r))
  end.

Definition disciplined {A} (m : M A) : Prop :=
  ∀ w, ∃ evs, w_trace (final (m w)) = w_trace w ++ evs ∧ abort_shape evs (m w).

(** Every event a computation adds satisfies [P]. *)
Definition only {A} (P : Event → Prop) (m : M A) : Prop :=
  ∀ w, ∃ evs, w_trace (final (m w)) = w_trace w ++ evs ∧ Forall P evs.

(** A computation that leaves the file system and the environment as
    they were. *)
Definition read_only {A} (m : M A) : Prop :=
  ∀ w, w_fs (final (m w)) = w_fs w ∧ w_environ (final (m w)) = w_environ w.

(** An option and its value sit next to each other in a command line. *)
Definition option_at (i : nat) (flag value : string) (cmd : list string) : Prop :=
  cmd !! i = Some flag ∧ cmd !! S i = Some value.



(** Event classes used in the statements. *)
Definition not_spawn (e : Event) : Prop :=
  match e with
  | Spawn _ _ _ _ => False
  | _ => True
  end.

Definition is_log (e : Event) : Prop :=
  match e with
  | Log _ _ => True
  | _ => False
  end.

(** ** A small installation, used by the examples *)

Module Demo.

Definition args : Args :=
  mkArgs ["proj"] ["imgs"] "colmap" "brush" (Some ["masks"]) "png" (Some ["dmasks"])
         3200 8192 2000 "OPENCV" 1 15 1 1 0
         1 30000 1000000 5000 8 "export_{iter}.ply" (Some "0").

(** The same command line with [--run_brush 0]. *)
Definition args_no_brush : Args :=
  mkArgs ["proj"] ["imgs"] "colmap" "brush" (Some ["masks"]) "png" (Some ["dmasks"])
         3200 8192 2000 "OPENCV" 1 15 1 1 0
         0 30000 1000000 5000 8 "export_{iter}.ply" (Some "0").

(** Two photographs, one mask for COLMAP whose extension is in capitals,
    and two masks for Brush, one of them in capitals. *)
Definition fs : FS :=
  list_to_map
    [ (["imgs"], Dir); (["imgs"; "a.jpg"], File "A"); (["imgs"; "b.jpg"], File "B");
      (["masks"], Dir); (["masks"; "a.jpg.PNG"], File "ma");
      (["dmasks"], Dir); (["dmasks"; "a.jpg.png"], File "da");
      (["dmasks"; "b.jpg.PNG"], File "db") ].

Definition world : World := mkWorld fs ∅ [].

(** A COLMAP that works: the mapper writes [sparse/0], the undistorter
    [dense/0] with its [images] and [sparse]; every command returns 0. *)
Definition colmap (w : World) (cmd : list string) (env : gmap string string)
    : ProcResult :=
  match cmd with
  | _ :: "mapper" :: _ => Exited 0 (<[ ["proj"; "sparse"; "0"] := Dir ]> (w_fs w))
  | _ :: "image_undistorter" :: _ =>
      Exited 0 (<[ ["proj"; "dense"; "0"; "sparse"] := Dir ]>
               (<[ ["proj"; "dense"; "0"; "images"] := Dir ]>
               (<[ ["proj"; "dense"; "0"] := Dir ]> (w_fs w))))
  | _ => Exited 0 (w_fs w)
  end.

Definition sys : System := mkSystem colmap (λ _ _, true).

End Demo.


(** The masks directory is configured, exists and holds a regular file
    with the mask extension. *)
Definition colmap_masks_present (args : Args) (fs : FS) (d : Path) : Prop :=
  masks_dir args = Some d
  ∧ FileSystem.path_exists fs d = true
  ∧ ∃ p, p ∈ FileSystem.children fs d ∧ is_mask args fs p.

(** [fs'] is [fs] with some directories added. *)
Definition grows_by_dirs (fs fs' : FS) : Prop :=
  ∀ q, fs' !! q = fs !! q ∨ (fs !! q = None ∧ fs' !! q = Some Dir).

(** No regular file sits at [p] or at one of its ancestors. *)
Definition no_file_on (fs : FS) (p : Path) : Prop :=
  ∀ q, q `prefix_of` p → FileSystem.is_file fs q = false.

(** A computation that starts no external program and leaves the
    environment alone. *)
Definition quiet {A} (m : M A) : Prop :=
  ∀ w, w_environ (final (m w)) = w_environ w
       ∧ ∃ evs, w_trace (final (m w)) = w_trace w ++ evs ∧ Forall not_spawn evs.

Module DemoFailures.

(** A COLMAP whose matcher returns 3. *)
Definition failing_matcher (w : World) (cmd : list string)
    (env : gmap string string) : ProcResult :=
  match cmd with
  | _ :: "exhaustive_matcher" :: _ => Exited 3 (w_fs w)
  | _ => Demo.colmap w cmd env
  end.

(** A COLMAP whose mapper returns 0 and writes nothing. *)
Definition idle_mapper (w : World) (cmd : list string)
    (env : gmap string string) : ProcResult :=
  match cmd with
  | _ :: "mapper" :: _ => Exited 0 (w_fs w)
  | _ => Demo.colmap w cmd env
  end.

(** A COLMAP whose undistorter returns 0 and writes only [dense/0/images]. *)
Definition partial_undistorter (w : World) (cmd : list string)
    (env : gmap string string) : ProcResult :=
  match cmd with
  | _ :: "image_undistorter" :: _ =>
      Exited 0 (<[ ["proj"; "dense"; "0"; "images"] := Dir ]>
               (<[ ["proj"; "dense"; "0"] := Dir ]> (w_fs w)))
  | _ => Demo.colmap w cmd env
  end.

Definition sys_failing_matcher : System := mkSystem failing_matcher (λ _ _, true).
Definition sys_idle_mapper : System := mkSystem idle_mapper (λ _ _, true).
Definition sys_partial_undistorter : System :=
  mkSystem partial_undistorter (λ _ _, true).

End DemoFailures.

(** The run up to, and without, the mapper; the undistorter; the copy of
    the dense masks; the Brush stage. *)
Definition before_mapper (sys : System) (args : Args) : M unit :=
  checks_and_setup args;;
  colmap_mask_args ← auto_mask_detection args;
  feature_extraction sys args colmap_mask_args;;
  matching sys args.

Definition before_undistort (sys : System) (args : Args) : M unit :=
  before_mapper sys args;;
  sparse_reconstruction sys args.

Definition before_masks (sys : System) (args : Args) : M unit :=
  before_undistort sys args;;
  undistort sys args.

(** The events of a child that returned 0, and the world it leaves. *)
Definition child_returned (cmd : list string) (fs' : FS) (w : World) : World :=
  set_fs fs'
    (emit (Spawn cmd None (Returned 0) fs')
       (emit (Log INFO ("Running: " +:+ Str.join " " cmd)) w)).

(** The world in which [run_command] starts the child. *)
Definition child_started (cmd : list string) (w : World) : World :=
  emit (Log INFO ("Running: " +:+ Str.join " " cmd)) w.

(** The entries the copy of the dense masks selects: those the pattern
    matches in the configured directory, none when no directory is
    configured or the path does not exist. *)
Definition dense_masks_found (args : Args) (fs : FS) : list Path :=
  match dense_masks_dir args with
  | Some d =>
      if FileSystem.path_exists fs d
      then FileSystem.glob fs d ("*." +:+ mask_ext args)
      else []
  | None => []
  end.

(** What an invocation was started with. *)
Definition started (i : Invocation) : list string * option (gmap string string) :=
  (inv_cmd i, inv_env i).

Definition returned_zero (i : Invocation) : Prop := inv_result i = Returned 0.

(** A computation whose invocations follow the plan [L] (which may depend
    on the environment of the script): what it starts is an initial
    segment of the plan, every invocation but the last one returned 0,
    and when the computation returns the whole plan was carried out and
    every invocation returned 0.  The environment is left alone. *)
Definition staged {A}
    (L : gmap string string → list (list string * option (gmap string string)))
    (m : M A) : Prop :=
  ∀ w, w_environ (final (m w)) = w_environ w
       ∧ ∃ evs, w_trace (final (m w)) = w_trace w ++ evs
                ∧ started <$> invocations evs `prefix_of` L (w_environ w)
                ∧ Forall returned_zero (removelast (invocations evs))
                ∧ (completes (m w) →
                   started <$> invocations evs = L (w_environ w)
                   ∧ Forall returned_zero (invocations evs)).

(** The plan of [main] once mask discovery has returned [m]. *)
Definition plan (args : Args) (m : list string) (environ : gmap string string)
    : list (list string * option (gmap string string)) :=
  [ (cmd_feature args m, None); (cmd_match args, None);
    (cmd_mapper args, None); (cmd_undistort args, None) ]
  ++ (if bool_decide (run_brush args = 1)
      then [ (cmd_brush args, Some (brush_env args environ)) ]
      else []).

(** [main] after mask discovery. *)
Definition pipeline_from (sys : System) (args : Args) (m : list string) : M unit :=
  feature_extraction sys args m;;
  matching sys args;;
  sparse_reconstruction sys args;;
  undistort sys args;;
  provide_dense_masks args;;
  brush_training sys args;;
  logger INFO "DONE".

Module DemoEdges.

(** A tool that returns 2 and touches nothing. *)
Definition sys_returns_2 : System :=
  mkSystem (λ w _ _, Exited 2 (w_fs w)) (λ _ _, true).

(** An executable that exists and cannot be executed. *)
Definition sys_not_executable : System :=
  mkSystem (λ _ _ _, CannotStart EACCES) (λ _ _, true).

(** The working COLMAP of the demo, and no Brush on the search path. *)
Definition sys_no_brush : System := mkSystem Demo.colmap (λ _ _, false).

(** The demo command line with a regular file given as images directory. *)
Definition args_images_file : Args :=
  mkArgs ["proj"] ["imgs"; "a.jpg"] "colmap" "brush" (Some ["masks"]) "png" None
         3200 8192 2000 "OPENCV" 1 15 1 1 0
         1 30000 1000000 5000 8 "export_{iter}.ply" None.

(** The demo file system with a directory named like a mask among the
    dense masks, and the world after an undistorter ran on it. *)
Definition fs_directory_entry : FS :=
  list_to_map
    [ (["proj"], Dir); (["proj"; "dense"], Dir); (["proj"; "dense"; "0"], Dir);
      (["dmasks"], Dir); (["dmasks"; "old.png"], Dir) ].

(** A project whose [dense/0/masks] already holds a mask, given as the
    directory of the dense masks. *)
Definition fs_masks_in_place : FS :=
  list_to_map
    [ (["proj"], Dir); (["proj"; "dense"], Dir); (["proj"; "dense"; "0"], Dir);
      (["proj"; "dense"; "0"; "masks"], Dir);
      (["proj"; "dense"; "0"; "masks"; "a.png"], File "m") ].

Definition args_masks_in_place : Args :=
  mkArgs ["proj"] ["imgs"] "colmap" "brush" None "png"
         (Some ["proj"; "dense"; "0"; "masks"])
         3200 8192 2000 "OPENCV" 1 15 1 1 0
         1 30000 1000000 5000 8 "export_{iter}.ply" None.

(** The demo command line with one of the photographs given as masks
    directory. *)
Definition args_masks_file : Args :=
  mkArgs ["proj"] ["imgs"] "colmap" "brush" (Some ["imgs"; "a.jpg"]) "png" None
         3200 8192 2000 "OPENCV" 1 15 1 1 0
         1 30000 1000000 5000 8 "export_{iter}.ply" None.

(** The demo installation with, among the dense masks, a directory
    named like a mask. *)
Definition fs_directory_among_masks : FS :=
  list_to_map
    [ (["imgs"], Dir); (["imgs"; "a.jpg"], File "A");
      (["dmasks"], Dir); (["dmasks"; "old.png"], Dir) ].


(** The demo command line with the empty string as device, and a script
    whose own environment names device 1. *)
Definition args_empty_device : Args :=
  mkArgs ["proj"] ["imgs"] "colmap" "brush" (Some ["masks"]) "png" (Some ["dmasks"])
         3200 8192 2000 "OPENCV" 1 15 1 1 0
         1 30000 1000000 5000 8 "export_{iter}.ply" (Some "").

Definition world_device_1 : World :=
  mkWorld Demo.fs {[ "CUBECL_DEFAULT_DEVICE" := "1" ]} [].

(** The demo command line with a mask extension of two parts. *)
Definition args_dotted_ext : Args :=
  mkArgs ["proj"] ["imgs"] "colmap" "brush" (Some ["masks"]) "jpg.png" (Some ["dmasks"])
         3200 8192 2000 "OPENCV" 1 15 1 1 0
         1 30000 1000000 5000 8 "export_{iter}.ply" None.

End DemoEdges.

(** Any event but the last line of a run that went through. *)
Definition not_done (e : Event) : Prop := e ≠ Log INFO "DONE".

(** A computation that logs [DONE] as the last thing it does when it
    returns, and not at all when it does not return. *)
Definition done_at_end {A} (m : M A) : Prop :=
  ∀ w, ∃ evs,
    w_trace (final (m w)) = w_trace w ++ evs
    ∧ ((completes (m w)
        ∧ ∃ evs0, evs = evs0 ++ [Log INFO "DONE"] ∧ Forall not_done evs0)
       ∨ (¬ completes (m w) ∧ Forall not_done evs)).

(** What [count_images] counts in directory [d]: its entries that are
    regular files with one of the five suffixes, in whatever case. *)
Definition counted_images (fs : FS) (d : Path) : nat :=
  length (filter (λ p, Str.lower (PurePath.suffix p) ∈ extensions
                       ∧ FileSystem.is_file fs p = true)
            (FileSystem.children fs d)).

(** The masks that mask discovery counts in directory [d]. *)
Definition counted_masks (args : Args) (fs : FS) (d : Path) : nat :=
  length (filter (is_mask args fs) (FileSystem.children fs d)).

Definition fewer_masks_warning : Event :=
  Log WARNING "Fewer masks than images. Images without masks will be processed without masking.".

(** What the script itself may do to the file system: make one of its
    five directories, with [exist_ok=True], and copy an entry of the
    directory of the dense masks to [dense/0/masks] under its own name. *)
Definition own_operation (args : Args) (e : Event) : Prop :=
  match e with
  | Mkdir p parents exist_ok =>
      exist_ok = true
      ∧ (p, parents) ∈ [ (project_dir args, true); (sparse_dir args, false);
                         (dense_dir args, false); (brush_masks_path args, false);
                         (brush_export_dir args, true) ]
  | Copy src dst =>
      (∃ d, dense_masks_dir args = Some d ∧ src = d </> PurePath.name src)
      ∧ dst = brush_masks_path args </> PurePath.name src
  | _ => True
  end.

(** Paths that can name the same file only by being equal: both relative
    or both absolute, and without [..] components.  (Pathlib has already
    dropped [.] components and repeated separators.) *)
Definition is_absolute (p : Path) : bool :=
  if p is "/" :: _ then true else false.

Definition spelled_alike (p q : Path) : Prop :=
  is_absolute p = is_absolute q ∧ (".." ∉ p) ∧ (".." ∉ q).

#[global] Instance spelled_alike_dec p q : Decision (spelled_alike p q).
Proof. unfold spelled_alike. apply _. Defined.

(** * Properties *)

(** ** Traces *)

Lemma since_app {A} (w : World) (o : Outcome A) evs :
  w_trace (final o) = w_trace w ++ evs → since w o = evs.
Proof. intros H. unfold since. rewrite H. apply drop_app_length. Qed.

Lemma invocations_app t1 t2 : invocations (t1 ++ t2) = invocations t1 ++ invocations t2.
Proof. apply omap_app. Qed.

Lemma invocations_not_spawn evs : Forall not_spawn evs → invocations evs = [].
Proof.
  induction 1 as [|e evs He _ IH]; [done|].
  destruct e; simpl in *; try done.
Qed.

(** ** The monad *)

Lemma bind_Normal {A B} (m : M A) (k : A → M B) w a w1 :
  m w = Normal a w1 → bind m k w = k a w1.
Proof. intros H. unfold bind. by rewrite H. Qed.

Lemma bind_SysExit {A B} (m : M A) (k : A → M B) w c w1 :
  m w = SysExit c w1 → bind m k w = SysExit c w1.
Proof. intros H. unfold bind. by rewrite H. Qed.

Lemma bind_Uncaught {A B} (m : M A) (k : A → M B) w e w1 :
  m w = Uncaught e w1 → bind m k w = Uncaught e w1.
Proof. intros H. unfold bind. by rewrite H. Qed.

Lemma bind_assoc {A B C} (m : M A) (k : A → M B) (h : B → M C) w :
  bind (bind m k) h w = bind m (λ a, bind (k a) h) w.
Proof. unfold bind. by destruct (m w). Qed.

Lemma bind_Normal_inv {A B} (m : M A) (k : A → M B) w b w2 :
  bind m k w = Normal b w2 → ∃ a w1, m w = Normal a w1 ∧ k a w1 = Normal b w2.
Proof. unfold bind. destruct (m w) as [a w1| |]; [eauto|done|done]. Qed.

(** ** Computations that add only events of one class *)

Section Only.

Context (P : Event → Prop).

Lemma only_ret {A} (a : A) : only P (ret a).
Proof. intros w. exists []. by rewrite app_nil_r. Qed.

Lemma only_bind {A B} (m : M A) (k : A → M B) :
  only P m → (∀ a, only P (k a)) → only P (bind m k).
Proof.
  intros Hm Hk w. destruct (Hm w) as (e1 & H1 & F1). unfold bind.
  destruct (m w) as [a w1|c w1|e w1]; simpl in *; [|by eauto..].
  destruct (Hk a w1) as (e2 & H2 & F2). exists (e1 ++ e2).
  rewrite H2, H1, app_assoc. split; [done|]. by apply Forall_app.
Qed.

Lemma only_sys_exit {A} c : only P (@sys_exit A c).
Proof. intros w. exists []. by rewrite app_nil_r. Qed.

Lemma only_logger lvl msg : P (Log lvl msg) → only P (logger lvl msg).
Proof. intros H w. exists [Log lvl msg]. split; [done|]. by constructor. Qed.

Lemma only_get_fs : only P get_fs.
Proof. intros w. exists []. by rewrite app_nil_r. Qed.

Lemma only_get_environ : only P get_environ.
Proof. intros w. exists []. by rewrite app_nil_r. Qed.

Lemma only_path_exists p : only P (path_exists p).
Proof. intros w. exists []. by rewrite app_nil_r. Qed.

Lemma only_glob d pat : only P (glob d pat).
Proof. intros w. exists []. by rewrite app_nil_r. Qed.

Lemma only_iterdir d : only P (iterdir d).
Proof.
  intros w. exists []. rewrite app_nil_r. unfold iterdir.
  by destruct (FileSystem.iterdir _ _).
Qed.

Lemma only_mkdir parents exist_ok p :
  P (Mkdir p parents exist_ok) → only P (mkdir parents exist_ok p).
Proof.
  intros H w. exists [Mkdir p parents exist_ok]. unfold mkdir.
  split; [|by constructor]. by destruct (FileSystem.mkdir _ _ _ _).
Qed.

Lemma only_copy2 src dst : P (Copy src dst) → only P (copy2 src dst).
Proof.
  intros H w. exists [Copy src dst]. unfold copy2.
  split; [|by constructor]. by destruct (FileSystem.copy2 _ _ _).
Qed.

Lemma only_for_each {A} (l : list A) body :
  (∀ x, only P (body x)) → only P (for_each l body).
Proof.
  intros H. induction l as [|x l IH]; simpl.
  - apply only_ret.
  - apply only_bind; [apply H|done].
Qed.

Lemma only_count_images d : only P (count_images d).
Proof.
  unfold count_images. apply only_bind; [apply only_iterdir|intros ?].
  apply only_bind; [apply only_get_fs|intros ?]. apply only_ret.
Qed.

Lemma only_shutil_which sys cmd : P (Which cmd) → only P (shutil_which sys cmd).
Proof. intros H w. exists [Which cmd]. split; [done|]. by constructor. Qed.

Lemma only_run_command sys cmd check env :
  (∀ lvl msg, P (Log lvl msg)) → (∀ r fs, P (Spawn cmd env r fs)) →
  only P (run_command sys cmd check env).
Proof.
  intros HL HS w. unfold run_command, bind, logger, subprocess_run. simpl.
  destruct (exec _ _ _ _) as [code fs'|e]; simpl.
  - destruct (check && negb (code =? 0)%Z)%bool; simpl.
    + eexists [_; _; _]. split; [by rewrite <-!app_assoc|].
      repeat constructor; auto.
    + eexists [_; _]. split; [by rewrite <-!app_assoc|].
      repeat constructor; auto.
  - destruct e; simpl.
    + eexists [_; _; _]. split; [by rewrite <-!app_assoc|].
      repeat constructor; auto.
    + eexists [_; _]. split; [by rewrite <-!app_assoc|].
      repeat constructor; auto.
Qed.

End Only.

Lemma only_mono {A} (P Q : Event → Prop) (m : M A) :
  (∀ e, P e → Q e) → only P m → only Q m.
Proof.
  intros H Hm w. destruct (Hm w) as (evs & E & F). exists evs.
  split; [done|]. eapply Forall_impl; eauto.
Qed.

Lemma only_since {A} P (m : M A) w : only P m → Forall P (since w (m w)).
Proof. intros H. destruct (H w) as (evs & E & F). by rewrite (since_app _ _ _ E). Qed.

(** ** Running the script symbolically *)

Lemma run_command_eq sys cmd env w :
  run_command sys cmd true env w =
    let w1 := emit (Log INFO ("Running: " +:+ Str.join " " cmd)) w in
    match exec sys w1 cmd (default (w_environ w) env) with
    | Exited code fs' =>
        let w2 := set_fs fs' (emit (Spawn cmd env (Returned code) fs') w1) in
        if (code =? 0)%Z then Normal code w2
        else SysExit code (emit (Log ERROR (failure_message cmd (Returned code))) w2)
    | CannotStart e =>
        let r := SpawnFailed (start_exn e) in
        let w2 := emit (Spawn cmd env r (w_fs w)) w1 in
        match e with
        | ENOENT => SysExit 1 (emit (Log ERROR (failure_message cmd r)) w2)
        | EACCES => Uncaught PermissionError w2
        end
    end.
Proof.
  unfold run_command, bind, logger, subprocess_run. simpl.
  destruct (exec _ _ _ _) as [code fs'|[]]; simpl; try done.
  destruct (code =? 0)%Z; done.
Qed.

Lemma bind_mkdir {B} parents exist_ok p (k : unit → M B) w :
  bind (mkdir parents exist_ok p) k w =
    match FileSystem.mkdir parents exist_ok (w_fs w) p with
    | inr fs' => k () (set_fs fs' (emit (Mkdir p parents exist_ok) w))
    | inl e => Uncaught e (emit (Mkdir p parents exist_ok) w)
    end.
Proof. unfold bind, mkdir. by destruct (FileSystem.mkdir _ _ _ _). Qed.

Lemma bind_copy2 {B} src dst (k : unit → M B) w :
  bind (copy2 src dst) k w =
    match FileSystem.copy2 (w_fs w) src dst with
    | inr fs' => k () (set_fs fs' (emit (Copy src dst) w))
    | inl e => Uncaught e (emit (Copy src dst) w)
    end.
Proof. unfold bind, copy2. by destruct (FileSystem.copy2 _ _ _). Qed.

Lemma bind_iterdir {B} d (k : list Path → M B) w :
  bind (iterdir d) k w =
    match FileSystem.iterdir (w_fs w) d with
    | inr l => k l w
    | inl e => Uncaught e w
    end.
Proof. unfold bind, iterdir. by destruct (FileSystem.iterdir _ _). Qed.

(** One step of the straight-line parts of the script. *)
Ltac mrun :=
  cbn [bind logger ret sys_exit raise get_fs get_environ path_exists glob
       shutil_which negb orb andb Z.eqb final w_trace w_fs w_environ emit set_fs].

(** Bring [since w o] to the list of the events added. *)
Ltac trace_simpl :=
  unfold since; mrun; rewrite <- ?app_assoc; cbn [app];
  rewrite ?drop_app_length, ?drop_all; cbn [invocations omap invocation_of].

(** Run a stage that is a message followed by [run_command], over the
    four ways the child can end. *)
Ltac run_child :=
  rewrite run_command_eq; mrun;
  destruct (exec _ _ _ _) as [code ?fs'|[]]; mrun;
  [destruct (Z.eqb_spec code 0); [subst code|]; mrun|..].

(** ** Integers on the command line *)

Lemma str_int_verbatim z : Str.int_str (Str.str_int z) = Some z.
Proof.
  unfold Str.int_str, Str.str_int.
  rewrite NilZero.isi.
  - simpl. by rewrite DecimalZ.of_to.
  - destruct z; simpl; try discriminate.
    intros [=H]. by apply Unsigned.to_uint_nonnil in H.
  - destruct z; simpl; try discriminate.
    intros [=H]. by apply Unsigned.to_uint_nonnil in H.
Qed.

(** ** What each stage invokes *)

Lemma feature_extraction_invocations sys args m w i :
  i ∈ invocations (since w (feature_extraction sys args m w)) →
  inv_cmd i = cmd_feature args m ∧ inv_env i = None.
Proof.
  unfold feature_extraction. mrun. unfold bind at 1. run_child.
  all: trace_simpl; by intros ->%list_elem_of_singleton.
Qed.

Lemma matching_invocations sys args w i :
  i ∈ invocations (since w (matching sys args w)) →
  inv_cmd i = cmd_match args ∧ inv_env i = None.
Proof.
  unfold matching. mrun. unfold bind at 1. run_child.
  all: trace_simpl; by intros ->%list_elem_of_singleton.
Qed.

Lemma sparse_reconstruction_invocations sys args w i :
  i ∈ invocations (since w (sparse_reconstruction sys args w)) →
  inv_cmd i = cmd_mapper args ∧ inv_env i = None.
Proof.
  unfold sparse_reconstruction. mrun. unfold bind at 1. run_child.
  1: destruct (FileSystem.path_exists _ _); mrun.
  all: trace_simpl; by intros ->%list_elem_of_singleton.
Qed.

Lemma undistort_invocations sys args w i :
  i ∈ invocations (since w (undistort sys args w)) →
  inv_cmd i = cmd_undistort args ∧ inv_env i = None.
Proof.
  unfold undistort. mrun. unfold bind at 1. run_child.
  1: destruct (FileSystem.path_exists _ _); mrun;
     [destruct (FileSystem.path_exists _ _); mrun|].
  all: trace_simpl; by intros ->%list_elem_of_singleton.
Qed.

Lemma brush_training_invocations sys args w i :
  i ∈ invocations (since w (brush_training sys args w)) →
  inv_cmd i = cmd_brush args ∧ inv_env i = Some (brush_env args (w_environ w)).
Proof.
  unfold brush_training. case_bool_decide.
  2:{ trace_simpl. by intros ?%elem_of_nil. }
  mrun.
  destruct (which _ _ _); mrun.
  2: destruct (FileSystem.path_exists _ _); mrun.
  3:{ trace_simpl. by intros ?%elem_of_nil. }
  all: rewrite bind_mkdir; mrun; destruct (FileSystem.mkdir _ _ _ _); mrun.
  all: try (trace_simpl; by intros ?%elem_of_nil).
  all: destruct (truthy _); mrun.
  all: unfold bind at 1; run_child.
  all: trace_simpl.
  all: by intros ->%list_elem_of_singleton.
Qed.

(** ** The command lines *)

(** C10: in the Brush command line the value of [--eval-every] is the
    value of [--export-every], both the text of [brush_export_every],
    and the value of [--max-resolution] is the text of
    [undistort_max_image_size]; this holds for every parsed command line,
    and that command line is the one every Brush invocation gets. *)
Theorem brush_command_couples_parameters (args : Args) :
  option_at 10 "--export-every" (Str.str_int (brush_export_every args)) (cmd_brush args)
  ∧ option_at 16 "--eval-every" (Str.str_int (brush_export_every args)) (cmd_brush args)
  ∧ option_at 4 "--max-resolution" (Str.str_int (undistort_max_image_size args))
      (cmd_brush args)
  ∧ brush_max_resolution args = undistort_max_image_size args
  ∧ length (cmd_brush args) = 19%nat
  ∧ ∀ sys w i, i ∈ invocations (since w (brush_training sys args w)) →
               inv_cmd i = cmd_brush args.
Proof.
  repeat split; try reflexivity.
  intros sys w i Hi. by apply brush_training_invocations in Hi as [-> _].
Qed.

Lemma feature_extraction_spawns_once sys args m w :
  ∃ r fs, invocations (since w (feature_extraction sys args m w))
          = [mkInvocation (cmd_feature args m) None r fs].
Proof.
  unfold feature_extraction. mrun. unfold bind at 1. run_child.
  all: trace_simpl; eauto.
Qed.

Lemma sparse_reconstruction_spawns_once sys args w :
  ∃ r fs, invocations (since w (sparse_reconstruction sys args w))
          = [mkInvocation (cmd_mapper args) None r fs].
Proof.
  unfold sparse_reconstruction. mrun. unfold bind at 1. run_child.
  1: destruct (FileSystem.path_exists _ _); mrun.
  all: trace_simpl; eauto.
Qed.

Lemma undistort_spawns_once sys args w :
  ∃ r fs, invocations (since w (undistort sys args w))
          = [mkInvocation (cmd_undistort args) None r fs].
Proof.
  unfold undistort. mrun. unfold bind at 1. run_child.
  1: destruct (FileSystem.path_exists _ _); mrun;
     [destruct (FileSystem.path_exists _ _); mrun|].
  all: trace_simpl; eauto.
Qed.

Lemma brush_training_spawns_once sys args w fs' :
  run_brush args = 1 →
  which sys (emit (Log INFO "5/5 BRUSH: train + export") w) (brush_bin args) = true
  ∨ FileSystem.path_exists (w_fs w) (PurePath.of_string (brush_bin args)) = true →
  FileSystem.mkdir true true (w_fs w) (brush_export_dir args) = inr fs' →
  ∃ r fs, invocations (since w (brush_training sys args w))
          = [mkInvocation (cmd_brush args) (Some (brush_env args (w_environ w))) r fs].
Proof.
  intros Hrun Hfound Hmk. unfold brush_training. rewrite bool_decide_true by done.
  mrun. destruct (which _ _ _); mrun.
  2:{ destruct Hfound as [?|Hex]; [done|]. rewrite Hex. mrun.
      rewrite bind_mkdir. mrun. rewrite Hmk. mrun.
      destruct (truthy _); mrun.
      all: unfold bind at 1; run_child.
      all: trace_simpl; eauto. }
  rewrite bind_mkdir. mrun. rewrite Hmk. mrun.
  destruct (truthy _); mrun.
  all: unfold bind at 1; run_child.
  all: trace_simpl; eauto.
Qed.

(** C7, as amended: every tunable parameter reaches the command line of
    the binary it is meant for, next to its option and as the decimal
    text of the integer (which reads back as the same integer) or as the
    string itself; the feature extractor, the mapper and the undistorter
    stages each start one program, with the command line built for it,
    and so does the Brush stage, with the environment built for it, when
    [run_brush] is 1, the binary is found and [brush_exports] can be
    made; in that environment [CUBECL_DEFAULT_DEVICE] is the configured
    device when one is given and is not the empty string, and what the
    script inherited otherwise, the other variables being those of the
    script. *)
Theorem parameters_forwarded_verbatim (args : Args) :
  (∀ m, let cmd := cmd_feature args m in
        option_at 6 "--ImageReader.single_camera" (Str.str_int (single_camera args)) cmd
        ∧ option_at 8 "--ImageReader.camera_model" (camera_model args) cmd
        ∧ option_at 12 "--SiftExtraction.max_image_size"
            (Str.str_int (sfm_max_image_size args)) cmd
        ∧ option_at 14 "--SiftExtraction.max_num_features"
            (Str.str_int (sift_max_num_features args)) cmd)
  ∧ (let cmd := cmd_mapper args in
     option_at 8 "--Mapper.min_num_matches" (Str.str_int (min_num_matches args)) cmd
     ∧ option_at 10 "--Mapper.ba_refine_focal_length"
         (Str.str_int (refine_focal_length args)) cmd
     ∧ option_at 12 "--Mapper.ba_refine_extra_params"
         (Str.str_int (refine_extra_params args)) cmd
     ∧ option_at 14 "--Mapper.ba_refine_principal_point"
         (Str.str_int (refine_principal_point args)) cmd)
  ∧ option_at 10 "--max_image_size" (Str.str_int (undistort_max_image_size args))
      (cmd_undistort args)
  ∧ (let cmd := cmd_brush args in
     option_at 2 "--total-steps" (Str.str_int (brush_total_steps args)) cmd
     ∧ option_at 6 "--max-splats" (Str.str_int (brush_max_splats args)) cmd
     ∧ option_at 8 "--eval-split-every" (Str.str_int (brush_eval_split_every args)) cmd
     ∧ option_at 10 "--export-every" (Str.str_int (brush_export_every args)) cmd
     ∧ option_at 14 "--export-name" (brush_export_name args) cmd)
  ∧ (∀ z, Str.int_str (Str.str_int z) = Some z)
  ∧ (∀ sys w,
       (∀ m, ∃ r fs, invocations (since w (feature_extraction sys args m w))
                     = [mkInvocation (cmd_feature args m) None r fs])
       ∧ (∃ r fs, invocations (since w (sparse_reconstruction sys args w))
                  = [mkInvocation (cmd_mapper args) None r fs])
       ∧ (∃ r fs, invocations (since w (undistort sys args w))
                  = [mkInvocation (cmd_undistort args) None r fs])
       ∧ (run_brush args = 1 →
          which sys (emit (Log INFO "5/5 BRUSH: train + export") w) (brush_bin args)
          = true
          ∨ FileSystem.path_exists (w_fs w) (PurePath.of_string (brush_bin args))
            = true →
          (∃ fs', FileSystem.mkdir true true (w_fs w) (brush_export_dir args) = inr fs') →
          ∃ r fs, invocations (since w (brush_training sys args w))
                  = [mkInvocation (cmd_brush args)
                       (Some (brush_env args (w_environ w))) r fs]))
  ∧ (∀ environ,
       (∀ k, k ≠ "CUBECL_DEFAULT_DEVICE" → brush_env args environ !! k = environ !! k)
       ∧ brush_env args environ !! "CUBECL_DEFAULT_DEVICE"
         = match cubecl_default_device args with
           | Some "" | None => environ !! "CUBECL_DEFAULT_DEVICE"
           | Some device => Some device
           end).
Proof.
  split_and!; try (intros; reflexivity); try (intros; by split).
  - apply str_int_verbatim.
  - intros sys w. split_and!.
    + intros m. apply feature_extraction_spawns_once.
    + apply sparse_reconstruction_spawns_once.
    + apply undistort_spawns_once.
    + intros Hrun Hfound [fs' Hmk]. by eapply brush_training_spawns_once.
  - intros environ. split.
    + intros k Hk. unfold brush_env. destruct (truthy _); [|done].
      by rewrite lookup_insert_ne.
    + unfold brush_env, truthy.
      destruct (cubecl_default_device args) as [[|c s]|]; simpl; try done.
      by rewrite lookup_insert_eq.
Qed.

(** The demo command line asks for device ["0"]: Brush is started with
    [CUBECL_DEFAULT_DEVICE=0] whatever the environment of the script. *)
Lemma parameters_forwarded_verbatim_witness :
  brush_env Demo.args ∅ !! "CUBECL_DEFAULT_DEVICE" = Some "0".
Proof.
  destruct (parameters_forwarded_verbatim Demo.args)
    as (_ & _ & _ & _ & _ & _ & Henv).
  by destruct (Henv ∅) as [_ ->].
Defined.

(** C7 as stated fails for the device: given as the empty string it is
    not passed on, and Brush is started with the [CUBECL_DEFAULT_DEVICE]
    the script inherited, here 1. *)
Lemma empty_device_counterexample :
  cubecl_default_device DemoEdges.args_empty_device = Some ""
  ∧ inv_cmd <$> invocations (since DemoEdges.world_device_1
                               (main Demo.sys DemoEdges.args_empty_device
                                  DemoEdges.world_device_1)) !! 4%nat
    = Some (cmd_brush DemoEdges.args_empty_device)
  ∧ (λ i, inv_env i ≫= (.!! "CUBECL_DEFAULT_DEVICE"))
      <$> invocations (since DemoEdges.world_device_1
                         (main Demo.sys DemoEdges.args_empty_device
                            DemoEdges.world_device_1)) !! 4%nat
    = Some (Some "1").
Proof. split_and!; compute_done. Qed.

(** ** Matching mask files *)




Lemma lower_dot ext : Str.lower ("." +:+ ext) = "." +:+ Str.lower ext.
Proof. reflexivity. Qed.



(** ** COLMAP mask discovery *)

Lemma filter_nonempty {A} (P : A → Prop) `{!∀ x, Decision (P x)} (l : list A) :
  Nat.ltb 0 (length (filter P l)) = true ↔ ∃ x, x ∈ l ∧ P x.
Proof.
  rewrite Nat.ltb_lt. split.
  - destruct (filter P l) as [|x l'] eqn:E; simpl; [lia|]. intros _.
    exists x. assert (x ∈ filter P l) as Hin by (rewrite E; left).
    apply list_elem_of_filter in Hin. tauto.
  - intros (x & Hx & HP).
    assert (x ∈ filter P l) as Hin by by apply list_elem_of_filter.
    destruct (filter P l); [by apply elem_of_nil in Hin|simpl; lia].
Qed.

Lemma iterdir_is_dir fs d :
  FileSystem.is_dir fs d = true → FileSystem.iterdir fs d = inr (FileSystem.children fs d).
Proof.
  unfold FileSystem.is_dir, FileSystem.iterdir.
  by destruct (FileSystem.stat fs d) as [[]|].
Qed.

Lemma exists_not_file_is_dir fs d :
  FileSystem.path_exists fs d = true → FileSystem.is_file fs d = false →
  FileSystem.is_dir fs d = true.
Proof.
  unfold FileSystem.path_exists, FileSystem.is_file, FileSystem.is_dir.
  by destruct (FileSystem.stat fs d) as [[]|].
Qed.

(** C3, as amended: mask discovery returns unless the masks path exists
    and either the images path is not a directory or the masks path is a
    regular file.  When it returns it has touched nothing but the log,
    and what it returns is the pair [--ImageReader.mask_path <masks_dir>]
    when the masks directory is configured, exists and holds a regular
    file with the mask extension, and nothing otherwise; the feature
    extractor is then invoked, once, on its fixed arguments followed by
    what discovery returned.  In the excluded cases listing a directory
    raises, nothing catches the exception, and what follows the set-up
    ends with it: the pipeline does not continue. *)
Theorem mask_arguments_iff_masks_present sys args w :
  ((∀ d, masks_dir args = Some d → FileSystem.path_exists (w_fs w) d = true →
         FileSystem.is_dir (w_fs w) (images_dir args) = true
         ∧ FileSystem.is_file (w_fs w) d = false) →
   ∃ colmap_mask_args w',
     auto_mask_detection args w = Normal colmap_mask_args w'
     ∧ w_fs w' = w_fs w ∧ w_environ w' = w_environ w
     ∧ Forall is_log (since w (auto_mask_detection args w))
     ∧ ((∃ d, colmap_masks_present args (w_fs w) d
              ∧ colmap_mask_args = ["--ImageReader.mask_path"; PurePath.str d])
        ∨ ((∀ d, ¬ colmap_masks_present args (w_fs w) d) ∧ colmap_mask_args = []))
     ∧ cmd_feature args colmap_mask_args = cmd_feature args [] ++ colmap_mask_args
     ∧ ∃ r fs, invocations (since w' (feature_extraction sys args colmap_mask_args w'))
               = [mkInvocation (cmd_feature args colmap_mask_args) None r fs])
  ∧ (∀ d, masks_dir args = Some d → FileSystem.path_exists (w_fs w) d = true →
          FileSystem.is_dir (w_fs w) (images_dir args) = false
          ∨ FileSystem.is_file (w_fs w) d = true →
          ∃ e, (e = NotADirectoryError ∨ e = FileNotFoundError)
               ∧ auto_mask_detection args w = Uncaught e w
               ∧ pipeline sys args w = Uncaught e w).
Proof.
  split.
  - intros Hok.
    assert (∀ m w', cmd_feature args m = cmd_feature args [] ++ m
                    ∧ ∃ r fs, invocations (since w' (feature_extraction sys args m w'))
                              = [mkInvocation (cmd_feature args m) None r fs]) as Hcmd.
    { intros m w'. split; [|apply feature_extraction_spawns_once].
      unfold cmd_feature. by rewrite app_nil_r. }
    assert (∃ w',
              no_colmap_masks w = Normal [] w' ∧ w_fs w' = w_fs w
              ∧ w_environ w' = w_environ w
              ∧ Forall is_log (since w (no_colmap_masks w))) as Hnone.
    { eexists. unfold no_colmap_masks. mrun. split_and!; try done.
      trace_simpl. by repeat constructor. }
    unfold auto_mask_detection. destruct (masks_dir args) as [d|] eqn:Hd.
    2:{ destruct Hnone as (w' & -> & ? & ? & ?). exists [], w'.
        split_and!; try done; try apply Hcmd. right. split; [|done].
        intros d (? & _). congruence. }
    mrun. destruct (FileSystem.path_exists (w_fs w) d) eqn:Hex.
    2:{ destruct Hnone as (w' & -> & ? & ? & ?). exists [], w'.
        split_and!; try done; try apply Hcmd. right. split; [|done].
        intros d' (? & ? & _). congruence. }
    destruct (Hok d eq_refl Hex) as [Himg Hmask].
    unfold count_images. rewrite bind_assoc, bind_iterdir, (iterdir_is_dir _ _ Himg).
    mrun. rewrite bind_iterdir, (iterdir_is_dir _ d) by by apply exists_not_file_is_dir.
    mrun.
    destruct (Nat.ltb 0 (length (filter (is_mask args (w_fs w)) _))) eqn:Hcount.
    + apply filter_nonempty in Hcount. mrun.
      match goal with |- context [if ?b then _ else _] => destruct b end; mrun.
      all: eexists _, _; split_and!; try done; try apply Hcmd.
      all: try (trace_simpl; by repeat constructor).
      all: left; by exists d.
    + mrun. eexists _, _; split_and!; try done; try apply Hcmd.
      * trace_simpl. by repeat constructor.
      * right. split; [|done]. intros d' (Hd' & _ & Hp).
        assert (d' = d) as -> by congruence.
        apply (proj2 (filter_nonempty _ _)) in Hp. congruence.
  - intros d Hd Hex Hbad.
    assert (∃ e, (e = NotADirectoryError ∨ e = FileNotFoundError)
                 ∧ auto_mask_detection args w = Uncaught e w) as (e & He & Hauto).
    { unfold auto_mask_detection. rewrite Hd. mrun. rewrite Hex. mrun.
      unfold count_images. rewrite bind_assoc, bind_iterdir.
      unfold FileSystem.iterdir at 1.
      destruct (FileSystem.stat (w_fs w) (images_dir args)) as [[]|] eqn:Eimg;
        [by eauto| |by eauto].
      destruct Hbad as [Hnd|Hfile].
      { unfold FileSystem.is_dir in Hnd. by rewrite Eimg in Hnd. }
      mrun. rewrite bind_iterdir. unfold FileSystem.iterdir.
      revert Hfile. unfold FileSystem.is_file.
      destruct (FileSystem.stat (w_fs w) d) as [[]|]; [by eauto|done..]. }
    exists e. split_and!; [done..|]. unfold pipeline. by apply bind_Uncaught.
Qed.

(** The demo installation: the images directory is a directory and
    [masks] is one too, so discovery returns, leaving the file system as
    it was. *)
Lemma mask_arguments_iff_masks_present_witness :
  ∃ m w', auto_mask_detection Demo.args Demo.world = Normal m w'
          ∧ w_fs w' = w_fs Demo.world.
Proof.
  destruct (mask_arguments_iff_masks_present Demo.sys Demo.args Demo.world)
    as [H _].
  destruct H as (m & w' & H & Hfs & _).
  - intros d Hd _. injection Hd as <-. split; compute_done.
  - exists m, w'. split; assumption.
Defined.

(** C3 as stated fails: a regular file given as masks directory is one
    of the other cases (no directory holding a mask), yet the pipeline
    does not continue without masks: the run dies of
    [NotADirectoryError] and the feature extractor is not started.  So
    does a run whose images path is a regular file while masks are
    there. *)
Lemma regular_file_as_masks_counterexample :
  masks_dir DemoEdges.args_masks_file = Some ["imgs"; "a.jpg"]
  ∧ FileSystem.is_file Demo.fs ["imgs"; "a.jpg"] = true
  ∧ FileSystem.children Demo.fs ["imgs"; "a.jpg"] = []
  ∧ main Demo.sys DemoEdges.args_masks_file Demo.world
    = Uncaught NotADirectoryError
        (final (checks_and_setup DemoEdges.args_masks_file Demo.world))
  ∧ invocations (since Demo.world (main Demo.sys DemoEdges.args_masks_file Demo.world))
    = []
  ∧ FileSystem.is_dir Demo.fs ["masks"] = true
  ∧ main Demo.sys DemoEdges.args_images_file Demo.world
    = Uncaught NotADirectoryError
        (final (checks_and_setup DemoEdges.args_images_file Demo.world))
  ∧ invocations (since Demo.world (main Demo.sys DemoEdges.args_images_file Demo.world))
    = [].
Proof. split_and!; compute_done. Qed.

(** ** Creating directories *)

Lemma removelast_snoc' {A} (l : list A) : l ≠ [] → ∃ x, l = removelast l ++ [x].
Proof.
  induction l as [|a l IH]; [done|]. intros _. destruct l as [|b l].
  - by exists a.
  - destruct IH as [x Hx]; [done|]. exists x. simpl in *. by rewrite <- Hx.
Qed.

Lemma parent_removelast p : p ≠ ["/"] → PurePath.parent p = removelast p.
Proof.
  intros Hr. unfold PurePath.parent.
  repeat (match goal with |- context [match ?x with _ => _ end] => destruct x end);
    done.
Qed.

Lemma parent_fixed p : PurePath.parent p = p ↔ p = [] ∨ p = ["/"].
Proof.
  split.
  - intros H. destruct (decide (p = [])) as [|Hne]; [by left|].
    destruct (decide (p = ["/"])) as [|Hr]; [by right|].
    rewrite parent_removelast in H by done. destruct (removelast_snoc' p Hne) as [x Hx].
    rewrite H in Hx. apply (f_equal length) in Hx. rewrite length_app in Hx. simpl in Hx. lia.
  - by intros [->| ->].
Qed.

Lemma parent_snoc p :
  PurePath.parent p ≠ p → ∃ x, p = PurePath.parent p ++ [x].
Proof.
  intros H. assert (p ≠ [] ∧ p ≠ ["/"]) as [Hne Hr].
  { split; intros ->; by apply H. }
  rewrite parent_removelast by done. by apply removelast_snoc'.
Qed.

Lemma stat_None fs p :
  FileSystem.stat fs p = None → p ≠ [] ∧ p ≠ ["/"] ∧ fs !! p = None.
Proof. unfold FileSystem.stat. case_bool_decide; [done|]. naive_solver. Qed.

Lemma stat_insert fs p q n :
  FileSystem.stat fs p = None →
  FileSystem.stat (<[p := n]> fs) q = if decide (p = q) then Some n else FileSystem.stat fs q.
Proof.
  intros E. apply stat_None in E as (H1 & H2 & _). unfold FileSystem.stat.
  case_decide; subst.
  - rewrite bool_decide_false by (intros [?|?]; congruence). apply lookup_insert_eq.
  - case_bool_decide; [done|]. by apply lookup_insert_ne.
Qed.

Lemma grows_refl fs : grows_by_dirs fs fs.
Proof. intros q. by left. Qed.

Lemma grows_trans fs1 fs2 fs3 :
  grows_by_dirs fs1 fs2 → grows_by_dirs fs2 fs3 → grows_by_dirs fs1 fs3.
Proof.
  intros H12 H23 q. destruct (H12 q) as [E|[E1 E2]], (H23 q) as [F|[F1 F2]];
    try (left; congruence); right; split; congruence.
Qed.

Lemma grows_insert fs p : fs !! p = None → grows_by_dirs fs (<[p := Dir]> fs).
Proof.
  intros H q. destruct (decide (p = q)) as [<-|Hne].
  - right. by rewrite lookup_insert_eq.
  - left. by apply lookup_insert_ne.
Qed.

Lemma grows_stat fs fs' q :
  grows_by_dirs fs fs' →
  FileSystem.stat fs' q = FileSystem.stat fs q
  ∨ (FileSystem.stat fs q = None ∧ FileSystem.stat fs' q = Some Dir).
Proof.
  intros H. unfold FileSystem.stat. case_bool_decide; [by left|]. apply H.
Qed.

Lemma grows_is_dir fs fs' q :
  grows_by_dirs fs fs' → FileSystem.is_dir fs q = true → FileSystem.is_dir fs' q = true.
Proof.
  intros H. unfold FileSystem.is_dir.
  destruct (grows_stat _ _ q H) as [->|[-> ->]]; done.
Qed.

Lemma grows_not_file fs fs' q :
  grows_by_dirs fs fs' → FileSystem.is_file fs q = false → FileSystem.is_file fs' q = false.
Proof.
  intros H. unfold FileSystem.is_file.
  destruct (grows_stat _ _ q H) as [->|[-> ->]]; done.
Qed.

Lemma grows_exists fs fs' q :
  grows_by_dirs fs fs' → FileSystem.path_exists fs q = true → FileSystem.path_exists fs' q = true.
Proof.
  intros H. unfold FileSystem.path_exists.
  destruct (grows_stat _ _ q H) as [->|[-> ->]]; done.
Qed.

Lemma os_mkdir_cases fs p :
  FileSystem.is_file fs p = false → FileSystem.is_file fs (PurePath.parent p) = false →
  (FileSystem.stat fs p = Some Dir ∧ FileSystem.os_mkdir fs p = inl FileExistsError)
  ∨ (FileSystem.stat fs p = None ∧ FileSystem.stat fs (PurePath.parent p) = Some Dir
     ∧ FileSystem.os_mkdir fs p = inr (<[p := Dir]> fs))
  ∨ (FileSystem.stat fs p = None ∧ FileSystem.stat fs (PurePath.parent p) = None
     ∧ FileSystem.os_mkdir fs p = inl FileNotFoundError).
Proof.
  unfold FileSystem.is_file, FileSystem.os_mkdir. intros Hp Hpp.
  destruct (FileSystem.stat fs p) as [[]|]; [done|by left|].
  destruct (FileSystem.stat fs (PurePath.parent p)) as [[]|]; [done|..]; right.
  - by left.
  - by right.
Qed.

Lemma is_dir_stat fs p : FileSystem.is_dir fs p = true ↔ FileSystem.stat fs p = Some Dir.
Proof. unfold FileSystem.is_dir. destruct (FileSystem.stat fs p) as [[]|]; naive_solver. Qed.

Lemma mkdir_made fs p :
  FileSystem.stat fs p = None →
  FileSystem.is_dir (<[p := Dir]> fs) p = true ∧ grows_by_dirs fs (<[p := Dir]> fs).
Proof.
  intros E. split.
  - apply is_dir_stat. rewrite stat_insert by done. by rewrite decide_True.
  - apply grows_insert. by apply stat_None in E as (_ & _ & ?).
Qed.

Lemma mkdir_flat_ok fs p :
  FileSystem.is_file fs p = false → FileSystem.is_dir fs (PurePath.parent p) = true →
  ∃ fs', FileSystem.mkdir_flat true fs p = inr fs'
         ∧ FileSystem.is_dir fs' p = true ∧ grows_by_dirs fs fs'.
Proof.
  intros Hf Hp. unfold FileSystem.mkdir_flat.
  assert (FileSystem.is_file fs (PurePath.parent p) = false) as Hpf.
  { apply is_dir_stat in Hp. unfold FileSystem.is_file. by rewrite Hp. }
  destruct (os_mkdir_cases fs p Hf Hpf) as [(E & ->)|[(E & Ep & ->)|(E & Ep & ->)]].
  - apply is_dir_stat in E. rewrite E. simpl. exists fs. split_and!; [done..|apply grows_refl].
  - eexists. split; [done|]. by apply mkdir_made.
  - apply is_dir_stat in Hp. congruence.
Qed.

Lemma no_file_on_parent fs p :
  no_file_on fs p → FileSystem.is_file fs (PurePath.parent p) = false.
Proof.
  intros Hnf. destruct (decide (PurePath.parent p = p)) as [->|Hpar]; [by apply Hnf|].
  destruct (parent_snoc p Hpar) as [x Hx]. apply Hnf. by exists [x].
Qed.

Lemma mkdir_parents_ok n fs (p : Path) :
  (length p ≤ n)%nat → no_file_on fs p →
  ∃ fs', FileSystem.mkdir_parents n true fs p = inr fs'
         ∧ FileSystem.is_dir fs' p = true ∧ grows_by_dirs fs fs'.
Proof.
  revert fs p. induction n as [|n IH]; intros fs p Hlen Hnf.
  all: assert (FileSystem.is_file fs p = false) as Hp by by apply Hnf.
  all: pose proof (no_file_on_parent fs p Hnf) as Hpf.
  all: cbn [FileSystem.mkdir_parents].
  all: destruct (os_mkdir_cases fs p Hp Hpf) as [(E & ->)|[(E & Ep & ->)|(E & Ep & ->)]].
  1,4: apply is_dir_stat in E; rewrite E; simpl; exists fs;
       split_and!; [done..|apply grows_refl].
  1,3: eexists; split; [done|]; by apply mkdir_made.
  all: assert (PurePath.parent p ≠ p) as Hpar
    by (intros [->| ->]%parent_fixed; by vm_compute in E).
  all: destruct (parent_snoc p Hpar) as [x Hx].
  all: rewrite bool_decide_false by done.
  - apply (f_equal length) in Hx. rewrite length_app in Hx. simpl in Hx. lia.
  - destruct (IH fs (PurePath.parent p)) as (fs1 & -> & Hd1 & Hg1).
    { apply (f_equal length) in Hx. rewrite length_app in Hx. simpl in Hx. lia. }
    { intros q Hq. apply Hnf. etrans; [done|]. by exists [x]. }
    destruct (mkdir_flat_ok fs1 p) as (fs2 & -> & Hd2 & Hg2).
    { by eapply grows_not_file. }
    { done. }
    exists fs2. split_and!; [done..|]. by eapply grows_trans.
Qed.

Lemma parent_div (p : Path) s : s ≠ "/" → PurePath.parent (p </> s) = p.
Proof.
  intros Hs. unfold PurePath.div. rewrite parent_removelast.
  - by rewrite removelast_last.
  - destruct p as [|a [|b p]]; simpl; congruence.
Qed.

Lemma mkdir_flat_existing fs p :
  FileSystem.is_dir fs p = true → FileSystem.mkdir_flat true fs p = inr fs.
Proof.
  intros H. unfold FileSystem.mkdir_flat, FileSystem.os_mkdir. rewrite H.
  apply is_dir_stat in H. by rewrite H.
Qed.

Lemma mkdir_parents_existing n fs p :
  FileSystem.is_dir fs p = true → FileSystem.mkdir_parents n true fs p = inr fs.
Proof.
  intros H. destruct n; cbn [FileSystem.mkdir_parents]; unfold FileSystem.os_mkdir;
    rewrite H; apply is_dir_stat in H; by rewrite H.
Qed.

(** ** Set-up *)

(** C5: when the images directory does not exist, [main] logs the error
    and exits with 1 having done nothing else; when it exists and no
    regular file is in the way, the set-up makes the project directory
    (an existing one included, missing parents created) and its [sparse]
    and [dense] directories, adds nothing but directories to the file
    system, and [main] goes on with the pipeline; when the three
    directories are already there the file system is left as it is. *)
Theorem setup_validates_and_creates sys args w :
  (FileSystem.path_exists (w_fs w) (images_dir args) = false →
   main sys args w
   = SysExit 1 (emit (Log ERROR ("IMAGES_DIR does not exist: "
                                   +:+ PurePath.str (images_dir args))) w))
  ∧ (FileSystem.path_exists (w_fs w) (images_dir args) = true →
     no_file_on (w_fs w) (project_dir args) →
     FileSystem.is_file (w_fs w) (sparse_dir args) = false →
     FileSystem.is_file (w_fs w) (dense_dir args) = false →
     ∃ fs',
       let w' :=
         mkWorld fs' (w_environ w)
           (w_trace w ++ [ Mkdir (project_dir args) true true;
                           Mkdir (sparse_dir args) false true;
                           Mkdir (dense_dir args) false true;
                           Log INFO ("Project: " +:+ PurePath.str (project_dir args));
                           Log INFO ("Images:  " +:+ PurePath.str (images_dir args)) ]) in
       checks_and_setup args w = Normal () w'
       ∧ FileSystem.is_dir fs' (project_dir args) = true
       ∧ FileSystem.is_dir fs' (sparse_dir args) = true
       ∧ FileSystem.is_dir fs' (dense_dir args) = true
       ∧ grows_by_dirs (w_fs w) fs'
       ∧ (FileSystem.is_dir (w_fs w) (project_dir args) = true →
          FileSystem.is_dir (w_fs w) (sparse_dir args) = true →
          FileSystem.is_dir (w_fs w) (dense_dir args) = true → fs' = w_fs w)
       ∧ main sys args w = pipeline sys args w').
Proof.
  split.
  - intros Hex. unfold main. apply bind_SysExit.
    unfold checks_and_setup. mrun. rewrite Hex. by mrun.
  - intros Hex Hproj Hsparse Hdense.
    destruct (mkdir_parents_ok (length (project_dir args)) (w_fs w) (project_dir args))
      as (fs1 & E1 & D1 & G1); [done..|].
    destruct (mkdir_flat_ok fs1 (sparse_dir args)) as (fs2 & E2 & D2 & G2).
    { by eapply grows_not_file. }
    { unfold sparse_dir. by rewrite parent_div. }
    destruct (mkdir_flat_ok fs2 (dense_dir args)) as (fs3 & E3 & D3 & G3).
    { eapply grows_not_file; [done|]. by eapply grows_not_file. }
    { unfold dense_dir. rewrite parent_div by done. by eapply grows_is_dir. }
    exists fs3.
    assert (checks_and_setup args w = Normal ()
              (mkWorld fs3 (w_environ w)
                 (w_trace w ++ [ Mkdir (project_dir args) true true;
                                 Mkdir (sparse_dir args) false true;
                                 Mkdir (dense_dir args) false true;
                                 Log INFO ("Project: " +:+ PurePath.str (project_dir args));
                                 Log INFO ("Images:  " +:+ PurePath.str (images_dir args)) ])))
      as Hsetup.
    { unfold checks_and_setup. mrun. rewrite Hex. mrun.
      rewrite bind_mkdir. cbn [FileSystem.mkdir]. rewrite E1. mrun.
      rewrite bind_mkdir. cbn [FileSystem.mkdir]. mrun. rewrite E2. mrun.
      rewrite bind_mkdir. cbn [FileSystem.mkdir]. mrun. rewrite E3. mrun.
      unfold logger, emit, set_fs. cbn [w_fs w_environ w_trace].
      by rewrite <- !app_assoc. }
    cbv zeta. split_and!; try done.
    + eapply grows_is_dir; [|eapply grows_is_dir; [|done]]; done.
    + by eapply grows_is_dir.
    + eapply grows_trans; [|done]. by eapply grows_trans.
    + intros P S D.
      rewrite mkdir_parents_existing in E1 by done. injection E1 as <-.
      rewrite mkdir_flat_existing in E2 by done. injection E2 as <-.
      rewrite mkdir_flat_existing in E3 by done. by injection E3 as <-.
    + unfold main. by rewrite (bind_Normal _ _ _ _ _ Hsetup).
Qed.

(** In the demo installation the images are there and the project
    directory is not: the set-up creates [proj], [proj/sparse] and
    [proj/dense]. *)
Lemma setup_validates_and_creates_witness :
  ∃ fs', FileSystem.is_dir fs' ["proj"] = true
         ∧ FileSystem.is_dir fs' ["proj"; "sparse"] = true
         ∧ FileSystem.is_dir fs' ["proj"; "dense"] = true
         ∧ grows_by_dirs Demo.fs fs'.
Proof.
  destruct (setup_validates_and_creates Demo.sys Demo.args Demo.world) as [_ H].
  destruct H as (fs' & _ & P & S & D & G & _).
  - by vm_compute.
  - intros q [k Hq]. change (project_dir Demo.args) with ["proj"] in Hq.
    destruct q as [|a [|b q]]; [done| |done].
    injection Hq as <- _. by vm_compute.
  - by vm_compute.
  - by vm_compute.
  - by exists fs'.
Defined.

(** ** The abort discipline *)

Lemma calm_not_spawn_or_log e :
  match e with
  | Log ERROR _ => False
  | Spawn _ _ r _ => ¬ failed r
  | _ => True
  end → calm e.
Proof. destruct e as [[]| | | |]; unfold calm; simpl; tauto. Qed.

Ltac calm_events :=
  repeat (apply Forall_cons_2;
          [apply calm_not_spawn_or_log; simpl;
           first [done | tauto | by intros H; apply H]|]);
  apply Forall_nil_2.

Lemma disciplined_of_only {A} (m : M A) :
  only calm m → (∀ w c w', m w ≠ SysExit c w') → disciplined m.
Proof.
  intros Hm Hne w. destruct (Hm w) as (evs & E & F). exists evs. split; [done|].
  destruct (m w) eqn:Eo; simpl; try done. by destruct (Hne _ _ _ Eo).
Qed.

Lemma disciplined_ret {A} (a : A) : disciplined (ret a).
Proof. apply disciplined_of_only; [apply only_ret|done]. Qed.

Lemma disciplined_bind {A B} (m : M A) (k : A → M B) :
  disciplined m → (∀ a, disciplined (k a)) → disciplined (bind m k).
Proof.
  intros Hm Hk w. destruct (Hm w) as (e1 & H1 & S1). unfold bind.
  destruct (m w) as [a w1|c w1|e w1]; simpl in *; [|by eauto..].
  destruct (Hk a w1) as (e2 & H2 & S2). exists (e1 ++ e2).
  rewrite H2, H1, app_assoc. split; [done|].
  destruct (k a w1) as [b w2|c w2|e w2]; simpl in *.
  - by apply Forall_app.
  - destruct S2 as (evs0 & F0 & S2). exists (e1 ++ evs0). split; [by apply Forall_app|].
    destruct S2 as [(msg & -> & ->)|(cmd & env & r & fs & -> & Hr & ->)].
    + left. exists msg. by rewrite app_assoc.
    + right. exists cmd, env, r, fs. by rewrite app_assoc.
  - by apply Forall_app.
Qed.

Lemma disciplined_die {A} msg : disciplined (bind (logger ERROR msg) (λ _, @sys_exit A 1)).
Proof.
  intros w. exists [Log ERROR msg]. split; [done|]. simpl.
  exists []. split; [done|]. left. by exists msg.
Qed.

Lemma disciplined_info msg : disciplined (logger INFO msg).
Proof.
  apply disciplined_of_only; [|done]. apply only_logger. by apply calm_not_spawn_or_log.
Qed.

Lemma disciplined_warning msg : disciplined (logger WARNING msg).
Proof.
  apply disciplined_of_only; [|done]. apply only_logger. by apply calm_not_spawn_or_log.
Qed.

Lemma disciplined_get_fs : disciplined get_fs.
Proof. apply disciplined_of_only; [apply only_get_fs|done]. Qed.

Lemma disciplined_get_environ : disciplined get_environ.
Proof. apply disciplined_of_only; [apply only_get_environ|done]. Qed.

Lemma disciplined_path_exists p : disciplined (path_exists p).
Proof. apply disciplined_of_only; [apply only_path_exists|done]. Qed.

Lemma disciplined_glob d pat : disciplined (glob d pat).
Proof. apply disciplined_of_only; [apply only_glob|done]. Qed.

Lemma disciplined_iterdir d : disciplined (iterdir d).
Proof.
  apply disciplined_of_only; [apply only_iterdir|]. intros w c w'.
  unfold iterdir. by destruct (FileSystem.iterdir _ _).
Qed.

Lemma disciplined_mkdir parents exist_ok p : disciplined (mkdir parents exist_ok p).
Proof.
  apply disciplined_of_only.
  - apply only_mkdir. by apply calm_not_spawn_or_log.
  - intros w c w'. unfold mkdir. by destruct (FileSystem.mkdir _ _ _ _).
Qed.

Lemma disciplined_copy2 src dst : disciplined (copy2 src dst).
Proof.
  apply disciplined_of_only.
  - apply only_copy2. by apply calm_not_spawn_or_log.
  - intros w c w'. unfold copy2. by destruct (FileSystem.copy2 _ _ _).
Qed.

Lemma disciplined_shutil_which sys cmd : disciplined (shutil_which sys cmd).
Proof.
  apply disciplined_of_only; [|done]. apply only_shutil_which.
  by apply calm_not_spawn_or_log.
Qed.

Lemma disciplined_for_each {A} (l : list A) body :
  (∀ x, disciplined (body x)) → disciplined (for_each l body).
Proof.
  intros H. induction l as [|x l IH]; simpl.
  - apply disciplined_ret.
  - apply disciplined_bind; [apply H|done].
Qed.

Lemma disciplined_count_images d : disciplined (count_images d).
Proof.
  unfold count_images. apply disciplined_bind; [apply disciplined_iterdir|intros ?].
  apply disciplined_bind; [apply disciplined_get_fs|intros ?]. apply disciplined_ret.
Qed.

Lemma disciplined_run_command sys cmd env : disciplined (run_command sys cmd true env).
Proof.
  intros w. run_child.
  - eexists [_; _]. split; [by rewrite <- !app_assoc|]. simpl.
    calm_events.
  - eexists [_; _; _]. split; [by rewrite <- !app_assoc|]. simpl.
    exists [Log INFO ("Running: " +:+ Str.join " " cmd)].
    split; [calm_events|].
    right. by eexists _, _, (Returned code), _.
  - eexists [_; _; _]. split; [by rewrite <- !app_assoc|]. simpl.
    exists [Log INFO ("Running: " +:+ Str.join " " cmd)].
    split; [calm_events|].
    right. by eexists _, _, (SpawnFailed FileNotFoundError), _.
  - eexists [_; _]. split; [by rewrite <- !app_assoc|]. simpl.
    calm_events.
Qed.

(** Decompose a stage into its statements. *)
Ltac disciplined_tac :=
  repeat first
    [ apply disciplined_die
    | apply disciplined_ret
    | apply disciplined_info
    | apply disciplined_warning
    | apply disciplined_get_fs
    | apply disciplined_get_environ
    | apply disciplined_path_exists
    | apply disciplined_glob
    | apply disciplined_iterdir
    | apply disciplined_mkdir
    | apply disciplined_copy2
    | apply disciplined_shutil_which
    | apply disciplined_count_images
    | apply disciplined_run_command
    | apply disciplined_for_each; intros ?
    | apply disciplined_bind; [|intros ?]
    | match goal with
      | |- disciplined (if ?b then _ else _) => destruct b
      | |- disciplined (match ?x with _ => _ end) => destruct x
      end ].

Lemma disciplined_main sys args : disciplined (main sys args).
Proof.
  unfold main, pipeline, checks_and_setup, auto_mask_detection, no_colmap_masks,
    feature_extraction, matching, sparse_reconstruction, undistort,
    provide_dense_masks, brush_training.
  disciplined_tac.
Qed.

Lemma app_cons_in_tail {A} (P : A → Prop) (pre : list A) x post evs0 tail :
  pre ++ x :: post = evs0 ++ tail → Forall P evs0 → ¬ P x →
  ∃ t, tail = t ++ x :: post ∧ pre = evs0 ++ t.
Proof.
  revert pre. induction evs0 as [|a evs0 IH]; intros pre H F nP.
  - by exists pre.
  - apply Forall_cons in F as [Pa F]. destruct pre as [|b pre]; simpl in H.
    + injection H as -> _. by destruct nP.
    + injection H as -> H. destruct (IH pre H F nP) as (t & -> & ->). by exists t.
Qed.

Lemma failed_spawn_not_calm cmd env r fs : failed r → ¬ calm (Spawn cmd env r fs).
Proof. intros H [C _]. by apply C. Qed.

Lemma failure_code_nonzero r : failed r → failure_code r ≠ 0.
Proof. destruct r as [c|[]]; simpl; done. Qed.

(** C2: [run_command] starts the command once; when the child returns a
    non-zero code or its executable is missing it logs the failure and
    exits, with the child's code or with 1, and when the child returns 0
    it returns.  In a run of [main], a failed invocation is followed by
    its error message and by nothing else, nothing before it had failed,
    and [main] exits with the status of that failure; [sys.exit] is never
    given 0; and a run in which nothing failed (no failed invocation, no
    error message, no uncaught exception) returns, with status 0. *)
Theorem failures_abort_immediately sys args w :
  (∀ cmd env w0, ∃ r fs,
     let o := run_command sys cmd true env w0 in
     invocations (since w0 o) = [mkInvocation cmd env r fs]
     ∧ (failed r →
        ∃ w', o = SysExit (failure_code r) w'
              ∧ last (w_trace w') = Some (Log ERROR (failure_message cmd r)))
     ∧ (r = Returned 0 → ∃ w', o = Normal 0 w'))
  ∧ (let o := main sys args w in
     (∀ pre cmd env r fs post,
        since w o = pre ++ Spawn cmd env r fs :: post → failed r →
        post = [Log ERROR (failure_message cmd r)]
        ∧ Forall calm pre
        ∧ (∃ w', o = SysExit (failure_code r) w')
        ∧ exit_status o = failure_code r mod 256)
     ∧ (∀ c w', o = SysExit c w' → c ≠ 0)
     ∧ (Forall calm (since w o) → (∀ e w', o ≠ Uncaught e w') →
        (∃ w', o = Normal () w') ∧ exit_status o = 0)).
Proof.
  split.
  - intros cmd env w0. cbv zeta. run_child.
    + eexists _, _. split; [by trace_simpl|]. split; [by intros []|eauto].
    + eexists _, _. split; [by trace_simpl|]. split; [|congruence].
      intros _. eexists. split; [done|]. simpl. by rewrite last_snoc.
    + eexists _, _. split; [by trace_simpl|]. split; [|congruence].
      intros _. eexists. split; [done|]. simpl. by rewrite last_snoc.
    + eexists _, _. split; [by trace_simpl|]. split; [by intros []|congruence].
  - cbv zeta. destruct (disciplined_main sys args w) as (evs & E & S).
    rewrite (since_app _ _ _ E). split_and!.
    + intros pre cmd env r fs post Hevs Hr.
      pose proof (failed_spawn_not_calm cmd env r fs Hr) as Hnc.
      destruct (main sys args w) as [a w'|c w'|e w'] eqn:Eo; simpl in S.
      * rewrite Hevs in S. apply Forall_app in S as [_ S].
        apply Forall_cons in S as [S _]. by destruct Hnc.
      * destruct S as (evs0 & F0 & [(msg & -> & ->)|(cmd' & env' & r' & fs' & -> & Hr' & ->)]).
        -- symmetry in Hevs.
           destruct (app_cons_in_tail _ _ _ _ _ _ Hevs F0 Hnc) as (t & Ht & _).
           destruct t as [|? [|??]]; simpl in Ht; simplify_eq.
        -- symmetry in Hevs.
           destruct (app_cons_in_tail _ _ _ _ _ _ Hevs F0 Hnc) as (t & Ht & ->).
           destruct t as [|? [|? [|??]]]; simpl in Ht; simplify_eq.
           rewrite app_nil_r. split_and!; eauto.
      * rewrite Hevs in S. apply Forall_app in S as [_ S].
        apply Forall_cons in S as [S _]. by destruct Hnc.
    + intros c w' Eo. rewrite Eo in S. simpl in S.
      destruct S as (evs0 & F0 & [(msg & _ & ->)|(cmd' & env' & r' & fs' & _ & Hr' & ->)]);
        [done|by apply failure_code_nonzero].
    + intros Hcalm Hne. destruct (main sys args w) as [[] w'|c w'|e w'] eqn:Eo; simpl in S.
      * eauto.
      * exfalso.
        destruct S as (evs0 & F0 & [(msg & -> & ->)|(cmd' & env' & r' & fs' & -> & Hr' & ->)]);
          apply Forall_app in Hcalm as [_ Hcalm].
        -- apply Forall_cons in Hcalm as [[_ H] _]. by apply H.
        -- apply Forall_cons in Hcalm as [H _]. by apply failed_spawn_not_calm in H.
      * by destruct (Hne e w').
Qed.

(** The matcher of the demo returns 3: it is the thirteenth event of the
    run, the error message follows, and the script exits with 3. *)
Lemma failures_abort_immediately_witness :
  exit_status (main DemoFailures.sys_failing_matcher Demo.args Demo.world) = 3.
Proof.
  destruct (failures_abort_immediately DemoFailures.sys_failing_matcher Demo.args Demo.world)
    as [_ [H _]].
  set (o := main DemoFailures.sys_failing_matcher Demo.args Demo.world) in *.
  destruct (H (take 12 (since Demo.world o)) (cmd_match Demo.args) None (Returned 3)
              (w_fs (final o))
              [Log ERROR (failure_message (cmd_match Demo.args) (Returned 3))])
    as (_ & _ & _ & Hs).
  - compute_done.
  - compute_done.
  - exact Hs.
Defined.

(** ** Stages that start no program *)

Lemma quiet_ret {A} (a : A) : quiet (ret a).
Proof. intros w. split; [done|]. exists []. by rewrite app_nil_r. Qed.

Lemma quiet_sys_exit {A} c : quiet (@sys_exit A c).
Proof. intros w. split; [done|]. exists []. by rewrite app_nil_r. Qed.

Lemma quiet_bind {A B} (m : M A) (k : A → M B) :
  quiet m → (∀ a, quiet (k a)) → quiet (bind m k).
Proof.
  intros Hm Hk w. destruct (Hm w) as (V1 & e1 & H1 & F1). unfold bind.
  destruct (m w) as [a w1|c w1|e w1]; simpl in *; [|by eauto..].
  destruct (Hk a w1) as (V2 & e2 & H2 & F2). split; [congruence|].
  exists (e1 ++ e2). rewrite H2, H1, app_assoc. split; [done|]. by apply Forall_app.
Qed.

Lemma quiet_of_only {A} (m : M A) :
  only not_spawn m → (∀ w, w_environ (final (m w)) = w_environ w) → quiet m.
Proof. intros H V w. split; [apply V|apply H]. Qed.

Lemma quiet_logger lvl msg : quiet (logger lvl msg).
Proof. apply quiet_of_only; [by apply only_logger|done]. Qed.

Lemma quiet_get_fs : quiet get_fs.
Proof. apply quiet_of_only; [apply only_get_fs|done]. Qed.

Lemma quiet_path_exists p : quiet (path_exists p).
Proof. apply quiet_of_only; [apply only_path_exists|done]. Qed.

Lemma quiet_glob d pat : quiet (glob d pat).
Proof. apply quiet_of_only; [apply only_glob|done]. Qed.

Lemma quiet_iterdir d : quiet (iterdir d).
Proof.
  apply quiet_of_only; [apply only_iterdir|]. intros w. unfold iterdir.
  by destruct (FileSystem.iterdir _ _).
Qed.

Lemma quiet_mkdir parents exist_ok p : quiet (mkdir parents exist_ok p).
Proof.
  apply quiet_of_only; [by apply only_mkdir|]. intros w. unfold mkdir.
  by destruct (FileSystem.mkdir _ _ _ _).
Qed.

Lemma quiet_copy2 src dst : quiet (copy2 src dst).
Proof.
  apply quiet_of_only; [by apply only_copy2|]. intros w. unfold copy2.
  by destruct (FileSystem.copy2 _ _ _).
Qed.

Lemma quiet_for_each {A} (l : list A) body :
  (∀ x, quiet (body x)) → quiet (for_each l body).
Proof.
  intros H. induction l as [|x l IH]; simpl.
  - apply quiet_ret.
  - apply quiet_bind; [apply H|done].
Qed.

Ltac quiet_tac :=
  repeat first
    [ apply quiet_ret
    | apply quiet_sys_exit
    | apply quiet_logger
    | apply quiet_get_fs
    | apply quiet_path_exists
    | apply quiet_glob
    | apply quiet_iterdir
    | apply quiet_mkdir
    | apply quiet_copy2
    | apply quiet_for_each; intros ?
    | apply quiet_bind; [|intros ?]
    | match goal with
      | |- quiet (if ?b then _ else _) => destruct b
      | |- quiet (match ?x with _ => _ end) => destruct x
      end ].

Lemma quiet_checks_and_setup args : quiet (checks_and_setup args).
Proof. unfold checks_and_setup. quiet_tac. Qed.

Lemma quiet_auto_mask_detection args : quiet (auto_mask_detection args).
Proof. unfold auto_mask_detection, no_colmap_masks, count_images. quiet_tac. Qed.

Lemma quiet_provide_dense_masks args : quiet (provide_dense_masks args).
Proof. unfold provide_dense_masks. quiet_tac. Qed.

Lemma quiet_Normal {A} (m : M A) w a w' :
  quiet m → m w = Normal a w' →
  w_environ w' = w_environ w
  ∧ ∃ evs, w_trace w' = w_trace w ++ evs ∧ invocations evs = [].
Proof.
  intros H E. destruct (H w) as (V & evs & T & F). rewrite E in V, T. simpl in *.
  split; [done|]. exists evs. split; [done|]. by apply invocations_not_spawn.
Qed.

(** ** Stages that start a program, when they return *)

Ltac stage_returned :=
  intros [= <-]; split; [done|]; eexists; split;
  [cbn [w_trace emit set_fs]; by rewrite <- !app_assoc|done].

Lemma feature_extraction_Normal sys args m w w' :
  feature_extraction sys args m w = Normal () w' →
  w_environ w' = w_environ w
  ∧ ∃ evs, w_trace w' = w_trace w ++ evs
           ∧ invocations evs
             = [mkInvocation (cmd_feature args m) None (Returned 0) (w_fs w')].
Proof.
  unfold feature_extraction. mrun. unfold bind at 1. run_child; try done.
  stage_returned.
Qed.

Lemma matching_Normal sys args w w' :
  matching sys args w = Normal () w' →
  w_environ w' = w_environ w
  ∧ ∃ evs, w_trace w' = w_trace w ++ evs
           ∧ invocations evs = [mkInvocation (cmd_match args) None (Returned 0) (w_fs w')].
Proof.
  unfold matching. mrun. unfold bind at 1. run_child; try done.
  stage_returned.
Qed.

Lemma sparse_reconstruction_Normal sys args w w' :
  sparse_reconstruction sys args w = Normal () w' →
  FileSystem.path_exists (w_fs w') (sparse_dir args </> "0") = true
  ∧ w_environ w' = w_environ w
  ∧ ∃ evs, w_trace w' = w_trace w ++ evs
           ∧ invocations evs = [mkInvocation (cmd_mapper args) None (Returned 0) (w_fs w')].
Proof.
  unfold sparse_reconstruction. mrun. unfold bind at 1. run_child; try done.
  destruct (FileSystem.path_exists _ _) eqn:Hex; mrun; [|done].
  intros [= <-]. split; [done|]. split; [done|]. eexists. split;
    [cbn [w_trace emit set_fs]; by rewrite <- !app_assoc|done].
Qed.

Lemma undistort_Normal sys args w w' :
  undistort sys args w = Normal () w' →
  FileSystem.path_exists (w_fs w') (brush_images_path args) = true
  ∧ FileSystem.path_exists (w_fs w') (brush_sparse_path args) = true
  ∧ w_environ w' = w_environ w
  ∧ ∃ evs, w_trace w' = w_trace w ++ evs
           ∧ invocations evs
             = [mkInvocation (cmd_undistort args) None (Returned 0) (w_fs w')].
Proof.
  unfold undistort. mrun. unfold bind at 1. run_child; try done.
  destruct (FileSystem.path_exists _ (brush_images_path args)) eqn:Hi; mrun; [|done].
  destruct (FileSystem.path_exists _ (brush_sparse_path args)) eqn:Hs; mrun; [|done].
  intros [= <-]. split_and!; try done. eexists. split;
    [cbn [w_trace emit set_fs]; by rewrite <- !app_assoc|done].
Qed.

Lemma brush_training_skipped sys args w :
  run_brush args ≠ 1 → brush_training sys args w = Normal () w.
Proof. intros H. unfold brush_training. by rewrite bool_decide_false. Qed.

Lemma brush_training_Normal sys args w w' :
  run_brush args = 1 →
  brush_training sys args w = Normal () w' →
  ∃ evs, w_trace w' = w_trace w ++ evs
         ∧ invocations evs
           = [mkInvocation (cmd_brush args) (Some (brush_env args (w_environ w)))
                (Returned 0) (w_fs w')].
Proof.
  intros Hrun. unfold brush_training. rewrite bool_decide_true by done. mrun.
  destruct (which _ _ _); mrun.
  2: destruct (FileSystem.path_exists _ _); mrun; [|done].
  all: rewrite bind_mkdir; mrun; destruct (FileSystem.mkdir _ _ _ _); mrun; [done|].
  all: destruct (truthy _); mrun.
  all: unfold bind at 1; run_child; try done.
  all: intros [= <-]; eexists; split;
    [cbn [w_trace emit set_fs]; by rewrite <- !app_assoc|done].
Qed.

Lemma auto_mask_detection_Normal args w m w' :
  auto_mask_detection args w = Normal m w' →
  m = [] ∨ ∃ d, masks_dir args = Some d ∧ m = ["--ImageReader.mask_path"; PurePath.str d].
Proof.
  unfold auto_mask_detection, no_colmap_masks. destruct (masks_dir args) as [d|].
  2:{ mrun. intros [= <- _]. by left. }
  mrun. destruct (FileSystem.path_exists _ _); mrun.
  2:{ intros [= <- _]. by left. }
  unfold count_images. rewrite bind_assoc, bind_iterdir.
  destruct (FileSystem.iterdir _ (images_dir args)); [done|]. mrun.
  rewrite bind_iterdir. destruct (FileSystem.iterdir _ d); [done|]. mrun.
  destruct (Nat.ltb 0 _); mrun.
  - match goal with |- context [if ?b then _ else _] => destruct b end; mrun.
    all: intros [= <- _]; right; by exists d.
  - intros [= <- _]. by left.
Qed.

(** ** The order of the invocations *)

(** What a run that returns has invoked. *)
Lemma main_Normal_invocations sys args w w' :
  main sys args w = Normal () w' →
  ∃ m fs1 fs2 fs3 fs4,
    let colmap :=
      [ mkInvocation (cmd_feature args m) None (Returned 0) fs1;
        mkInvocation (cmd_match args) None (Returned 0) fs2;
        mkInvocation (cmd_mapper args) None (Returned 0) fs3;
        mkInvocation (cmd_undistort args) None (Returned 0) fs4 ] in
    (m = [] ∨ ∃ d, masks_dir args = Some d
                   ∧ m = ["--ImageReader.mask_path"; PurePath.str d])
    ∧ FileSystem.path_exists fs3 (sparse_dir args </> "0") = true
    ∧ FileSystem.path_exists fs4 (brush_images_path args) = true
    ∧ FileSystem.path_exists fs4 (brush_sparse_path args) = true
    ∧ ((run_brush args = 1
        ∧ ∃ fs5, invocations (since w (main sys args w))
                 = colmap ++ [ mkInvocation (cmd_brush args)
                                 (Some (brush_env args (w_environ w)))
                                 (Returned 0) fs5 ])
       ∨ (run_brush args ≠ 1
          ∧ invocations (since w (main sys args w)) = colmap)).
Proof.
  intros Hmain. rewrite Hmain. unfold main, pipeline in Hmain.
  apply bind_Normal_inv in Hmain as ([] & w1 & H1 & Hmain).
  apply bind_Normal_inv in Hmain as (m & w2 & H2 & Hmain).
  apply bind_Normal_inv in Hmain as ([] & w3 & H3 & Hmain).
  apply bind_Normal_inv in Hmain as ([] & w4 & H4 & Hmain).
  apply bind_Normal_inv in Hmain as ([] & w5 & H5 & Hmain).
  apply bind_Normal_inv in Hmain as ([] & w6 & H6 & Hmain).
  apply bind_Normal_inv in Hmain as ([] & w7 & H7 & Hmain).
  apply bind_Normal_inv in Hmain as ([] & w8 & H8 & Hmain).
  injection Hmain as <-.
  apply (quiet_Normal _ _ _ _ (quiet_checks_and_setup args)) in H1
    as (V1 & e1 & T1 & I1).
  pose proof (auto_mask_detection_Normal _ _ _ _ H2) as Hm.
  apply (quiet_Normal _ _ _ _ (quiet_auto_mask_detection args)) in H2
    as (V2 & e2 & T2 & I2).
  apply feature_extraction_Normal in H3 as (V3 & e3 & T3 & I3).
  apply matching_Normal in H4 as (V4 & e4 & T4 & I4).
  apply sparse_reconstruction_Normal in H5 as (X5 & V5 & e5 & T5 & I5).
  apply undistort_Normal in H6 as (X6 & Y6 & V6 & e6 & T6 & I6).
  apply (quiet_Normal _ _ _ _ (quiet_provide_dense_masks args)) in H7
    as (V7 & e7 & T7 & I7).
  exists m, (w_fs w3), (w_fs w4), (w_fs w5), (w_fs w6). cbv zeta.
  split_and!; try done.
  destruct (decide (run_brush args = 1)) as [Hrun|Hrun].
  - left. split; [done|].
    apply (brush_training_Normal _ _ _ _ Hrun) in H8 as (e8 & T8 & I8).
    exists (w_fs w8).
    rewrite (since_app w _ (e1 ++ e2 ++ e3 ++ e4 ++ e5 ++ e6 ++ e7 ++ e8 ++ [Log INFO "DONE"])).
    + rewrite !invocations_app, I1, I2, I3, I4, I5, I6, I7, I8. simpl.
      do 5 f_equal. congruence.
    + simpl. rewrite T8, T7, T6, T5, T4, T3, T2, T1. by rewrite <- !app_assoc.
  - right. split; [done|].
    rewrite brush_training_skipped in H8 by done. injection H8 as <-.
    rewrite (since_app w _ (e1 ++ e2 ++ e3 ++ e4 ++ e5 ++ e6 ++ e7 ++ [Log INFO "DONE"])).
    + rewrite !invocations_app, I1, I2, I3, I4, I5, I6, I7. done.
    + simpl. rewrite T7, T6, T5, T4, T3, T2, T1. by rewrite <- !app_assoc.
Qed.

(** C1, as amended: in a run that reaches completion the external
    invocations are feature_extractor, exhaustive_matcher, mapper,
    image_undistorter and, exactly when [run_brush] is 1, Brush, in this
    order and nothing else; each returned 0; [sparse/0] exists in the file
    system the mapper left and [dense/0/images] and [dense/0/sparse] in the
    one the undistorter left; the feature extractor got the fixed
    arguments, followed or not by the mask pair, and Brush the
    environment built from the one of the script. *)
Theorem completed_run_invocations sys args w w' :
  main sys args w = Normal () w' →
  ∃ m fs1 fs2 fs3 fs4,
    let colmap :=
      [ mkInvocation (cmd_feature args m) None (Returned 0) fs1;
        mkInvocation (cmd_match args) None (Returned 0) fs2;
        mkInvocation (cmd_mapper args) None (Returned 0) fs3;
        mkInvocation (cmd_undistort args) None (Returned 0) fs4 ] in
    (m = [] ∨ ∃ d, masks_dir args = Some d
                   ∧ m = ["--ImageReader.mask_path"; PurePath.str d])
    ∧ FileSystem.path_exists fs3 (sparse_dir args </> "0") = true
    ∧ FileSystem.path_exists fs4 (brush_images_path args) = true
    ∧ FileSystem.path_exists fs4 (brush_sparse_path args) = true
    ∧ ((run_brush args = 1
        ∧ ∃ fs5, invocations (since w (main sys args w))
                 = colmap ++ [ mkInvocation (cmd_brush args)
                                 (Some (brush_env args (w_environ w)))
                                 (Returned 0) fs5 ])
       ∨ (run_brush args ≠ 1
          ∧ invocations (since w (main sys args w)) = colmap)).
Proof. apply main_Normal_invocations. Qed.

(** The demo run with Brush: five invocations. *)
Lemma completed_run_invocations_witness :
  length (invocations (since Demo.world (main Demo.sys Demo.args Demo.world))) = 5%nat.
Proof.
  assert (∃ w', main Demo.sys Demo.args Demo.world = Normal () w') as [w' Hw].
  { exists (final (main Demo.sys Demo.args Demo.world)). compute_done. }
  destruct (completed_run_invocations Demo.sys Demo.args Demo.world w' Hw)
    as (m & fs1 & fs2 & fs3 & fs4 & _ & _ & _ & _ & [(_ & fs5 & ->)|(Hne & _)]).
  - reflexivity.
  - by destruct Hne.
Defined.

(** C1 as stated fails: with [--run_brush 0] the demo run reaches
    completion after four invocations, none of them Brush; and in it the
    feature extractor left no [database.db], yet the matcher was started. *)
Lemma five_invocations_counterexample :
  completes (main Demo.sys Demo.args_no_brush Demo.world)
  ∧ map inv_cmd (invocations (since Demo.world
                                (main Demo.sys Demo.args_no_brush Demo.world)))
    = [ cmd_feature Demo.args_no_brush ["--ImageReader.mask_path"; "masks"];
        cmd_match Demo.args_no_brush;
        cmd_mapper Demo.args_no_brush;
        cmd_undistort Demo.args_no_brush ]
  ∧ (λ i, FileSystem.path_exists (inv_fs i) (db_path Demo.args_no_brush))
      <$> invocations (since Demo.world
                         (main Demo.sys Demo.args_no_brush Demo.world)) !! 0%nat
    = Some false
  ∧ inv_cmd <$> invocations (since Demo.world
                               (main Demo.sys Demo.args_no_brush Demo.world)) !! 1%nat
    = Some (cmd_match Demo.args_no_brush).
Proof.
  split_and!.
  - exists (), (final (main Demo.sys Demo.args_no_brush Demo.world)). compute_done.
  - compute_done.
  - compute_done.
  - compute_done.
Qed.

(** ** The checks between the stages *)

Lemma main_from_mapper sys args w :
  main sys args w
  = bind (before_mapper sys args)
      (λ _, sparse_reconstruction sys args;; undistort sys args;;
            provide_dense_masks args;; brush_training sys args;;
            logger INFO "DONE") w.
Proof.
  unfold main, pipeline, before_mapper, bind.
  destruct (checks_and_setup args w) as [[] w1| |]; [|done..].
  destruct (auto_mask_detection args w1) as [m w2| |]; [|done..].
  destruct (feature_extraction sys args m w2) as [[] w3| |]; [|done..].
  by destruct (matching sys args w3) as [[] w4| |].
Qed.

Lemma main_from_undistort sys args w :
  main sys args w
  = bind (before_undistort sys args)
      (λ _, undistort sys args;; provide_dense_masks args;;
            brush_training sys args;; logger INFO "DONE") w.
Proof.
  rewrite main_from_mapper. unfold before_undistort, bind.
  destruct (before_mapper sys args w) as [[] w1| |]; [|done..].
  by destruct (sparse_reconstruction sys args w1) as [[] w2| |].
Qed.

Lemma main_from_masks sys args w :
  main sys args w
  = bind (before_masks sys args)
      (λ _, provide_dense_masks args;; brush_training sys args;;
            logger INFO "DONE") w.
Proof.
  rewrite main_from_undistort. unfold before_masks, bind.
  destruct (before_undistort sys args w) as [[] w1| |]; [|done..].
  by destruct (undistort sys args w1) as [[] w2| |].
Qed.

Lemma sparse_reconstruction_missing sys args w fs' :
  let w1 := emit (Log INFO "3/5 COLMAP: mapper (sparse SfM)") w in
  exec sys (child_started (cmd_mapper args) w1) (cmd_mapper args) (w_environ w)
  = Exited 0 fs' →
  FileSystem.path_exists fs' (sparse_dir args </> "0") = false →
  sparse_reconstruction sys args w
  = SysExit 1
      (emit (Log ERROR ("Sparse model not found at "
                          +:+ PurePath.str (sparse_dir args </> "0")
                          +:+ ". Mapper may have failed."))
         (child_returned (cmd_mapper args) fs' w1)).
Proof.
  intros w1 Hexec Hex. unfold sparse_reconstruction. mrun. unfold bind at 1.
  rewrite run_command_eq. mrun.
  match goal with
  | |- context [exec ?s ?a ?b ?c] =>
      change (exec s a b c)
        with (exec sys (child_started (cmd_mapper args) w1) (cmd_mapper args) (w_environ w))
  end.
  rewrite Hexec. mrun. rewrite Hex. by mrun.
Qed.

Lemma undistort_missing sys args w fs' :
  let w1 := emit (Log INFO "4/5 COLMAP: image_undistorter (creates dense/0/images + dense/0/sparse)") w in
  exec sys (child_started (cmd_undistort args) w1) (cmd_undistort args) (w_environ w)
  = Exited 0 fs' →
  FileSystem.path_exists fs' (brush_images_path args) = false
  ∨ FileSystem.path_exists fs' (brush_sparse_path args) = false →
  undistort sys args w
  = SysExit 1
      (emit (Log ERROR ("Expected " +:+ PurePath.str (brush_images_path args)
                          +:+ " and " +:+ PurePath.str (brush_sparse_path args)
                          +:+ " to exist after undistort."))
         (child_returned (cmd_undistort args) fs' w1)).
Proof.
  intros w1 Hexec Hex. unfold undistort. mrun. unfold bind at 1.
  rewrite run_command_eq. mrun.
  match goal with
  | |- context [exec ?s ?a ?b ?c] =>
      change (exec s a b c)
        with (exec sys (child_started (cmd_undistort args) w1) (cmd_undistort args)
                (w_environ w))
  end.
  rewrite Hexec. mrun.
  destruct (FileSystem.path_exists fs' (brush_images_path args)); mrun; [|done].
  destruct Hex as [Hex|Hex]; [done|]. rewrite Hex. by mrun.
Qed.

(** C4: in a run that reached the mapper, if the mapper returns 0 and
    [sparse/0] does not exist in the file system it leaves, [main] logs
    the error and exits with 1, the mapper being its last invocation; in
    a run that reached the undistorter, if the undistorter returns 0 and
    [dense/0/images] or [dense/0/sparse] does not exist, [main] logs the
    error and exits with 1, the undistorter being its last invocation and
    nothing having been created or copied after it. *)
Theorem missing_outputs_abort sys args w :
  (∀ w3 fs',
     before_mapper sys args w = Normal () w3 →
     let w3' := emit (Log INFO "3/5 COLMAP: mapper (sparse SfM)") w3 in
     exec sys (child_started (cmd_mapper args) w3') (cmd_mapper args) (w_environ w3)
     = Exited 0 fs' →
     FileSystem.path_exists fs' (sparse_dir args </> "0") = false →
     main sys args w
     = SysExit 1
         (emit (Log ERROR ("Sparse model not found at "
                             +:+ PurePath.str (sparse_dir args </> "0")
                             +:+ ". Mapper may have failed."))
            (child_returned (cmd_mapper args) fs' w3'))
     ∧ exit_status (main sys args w) = 1
     ∧ since w3 (main sys args w)
       = [ Log INFO "3/5 COLMAP: mapper (sparse SfM)";
           Log INFO ("Running: " +:+ Str.join " " (cmd_mapper args));
           Spawn (cmd_mapper args) None (Returned 0) fs';
           Log ERROR ("Sparse model not found at "
                        +:+ PurePath.str (sparse_dir args </> "0")
                        +:+ ". Mapper may have failed.") ])
  ∧ (∀ w4 fs',
       before_undistort sys args w = Normal () w4 →
       let w4' := emit (Log INFO "4/5 COLMAP: image_undistorter (creates dense/0/images + dense/0/sparse)") w4 in
       exec sys (child_started (cmd_undistort args) w4') (cmd_undistort args)
         (w_environ w4)
       = Exited 0 fs' →
       FileSystem.path_exists fs' (brush_images_path args) = false
       ∨ FileSystem.path_exists fs' (brush_sparse_path args) = false →
       main sys args w
       = SysExit 1
           (emit (Log ERROR ("Expected " +:+ PurePath.str (brush_images_path args)
                               +:+ " and " +:+ PurePath.str (brush_sparse_path args)
                               +:+ " to exist after undistort."))
              (child_returned (cmd_undistort args) fs' w4'))
       ∧ exit_status (main sys args w) = 1
       ∧ since w4 (main sys args w)
         = [ Log INFO "4/5 COLMAP: image_undistorter (creates dense/0/images + dense/0/sparse)";
             Log INFO ("Running: " +:+ Str.join " " (cmd_undistort args));
             Spawn (cmd_undistort args) None (Returned 0) fs';
             Log ERROR ("Expected " +:+ PurePath.str (brush_images_path args)
                          +:+ " and " +:+ PurePath.str (brush_sparse_path args)
                          +:+ " to exist after undistort.") ]).
Proof.
  split.
  - intros w3 fs' Hreach w3' Hexec Hex.
    assert (main sys args w
            = SysExit 1
                (emit (Log ERROR ("Sparse model not found at "
                                    +:+ PurePath.str (sparse_dir args </> "0")
                                    +:+ ". Mapper may have failed."))
                   (child_returned (cmd_mapper args) fs' w3'))) as Hmain.
    { rewrite main_from_mapper, (bind_Normal _ _ _ _ _ Hreach).
      apply bind_SysExit. by apply sparse_reconstruction_missing. }
    rewrite Hmain. split_and!; [done..|].
    unfold child_returned, w3'. by trace_simpl.
  - intros w4 fs' Hreach w4' Hexec Hex.
    assert (main sys args w
            = SysExit 1
                (emit (Log ERROR ("Expected " +:+ PurePath.str (brush_images_path args)
                                    +:+ " and " +:+ PurePath.str (brush_sparse_path args)
                                    +:+ " to exist after undistort."))
                   (child_returned (cmd_undistort args) fs' w4'))) as Hmain.
    { rewrite main_from_undistort, (bind_Normal _ _ _ _ _ Hreach).
      apply bind_SysExit. by apply undistort_missing. }
    rewrite Hmain. split_and!; [done..|].
    unfold child_returned, w4'. by trace_simpl.
Qed.

(** With a mapper that returns 0 and writes nothing, and with an
    undistorter that returns 0 and writes only [dense/0/images], the demo
    run exits with 1. *)
Lemma missing_outputs_abort_witness :
  exit_status (main DemoFailures.sys_idle_mapper Demo.args Demo.world) = 1
  ∧ exit_status (main DemoFailures.sys_partial_undistorter Demo.args Demo.world) = 1.
Proof.
  split.
  - destruct (missing_outputs_abort DemoFailures.sys_idle_mapper Demo.args Demo.world)
      as [H _].
    set (w3 := final (before_mapper DemoFailures.sys_idle_mapper Demo.args Demo.world)).
    destruct (H w3 (w_fs w3)) as (_ & Hs & _);
      [compute_done|compute_done|compute_done|exact Hs].
  - destruct (missing_outputs_abort DemoFailures.sys_partial_undistorter
                Demo.args Demo.world) as [_ H].
    set (w4 := final (before_undistort DemoFailures.sys_partial_undistorter
                        Demo.args Demo.world)).
    destruct (H w4 (<[ ["proj"; "dense"; "0"; "images"] := Dir ]>
                    (<[ ["proj"; "dense"; "0"] := Dir ]> (w_fs w4))))
      as (_ & Hs & _);
      [compute_done|compute_done|right; compute_done|exact Hs].
Defined.

(** ** Copying the dense masks *)

Lemma name_last (q : Path) : q ≠ ["/"] → PurePath.name q = List.last q "".
Proof.
  intros Hr. unfold PurePath.name.
  repeat (match goal with |- context [match ?x with _ => _ end] => destruct x end);
    done.
Qed.

Lemma child_decompose d q :
  FileSystem.is_child d q = true → q = d ++ [PurePath.name q].
Proof.
  unfold FileSystem.is_child. intros [Hp Hne]%bool_decide_eq_true. subst d.
  destruct (parent_snoc q) as [x Hx]; [done|].
  assert (q ≠ ["/"]) as Hr by (intros ->; by apply Hne).
  rewrite name_last by done. rewrite Hx at 3. by rewrite last_last.
Qed.

Lemma glob_entry fs d pat q :
  q ∈ FileSystem.glob fs d pat →
  q ∈ FileSystem.children fs d ∧ Str.fnmatchcase (PurePath.name q) pat = true
  ∧ q = d ++ [PurePath.name q].
Proof.
  unfold FileSystem.glob. destruct (FileSystem.is_dir fs d); [|by intros ?%elem_of_nil].
  intros [Hm Hc]%list_elem_of_filter. split_and!; try done.
  unfold FileSystem.children in Hc. apply list_elem_of_filter in Hc as [Hc _].
  by apply child_decompose.
Qed.







Lemma div_neq_self (p : Path) s : p </> s ≠ p.
Proof.
  unfold PurePath.div. intros H. apply (f_equal length) in H.
  rewrite length_app in H. simpl in H. lia.
Qed.




Lemma for_each_copy_no_exit (masks : Path) l w c w' :
  for_each l (λ f, copy2 f (masks </> PurePath.name f)) w ≠ SysExit c w'.
Proof.
  revert w. induction l as [|f l IH]; intros w; simpl; [done|].
  rewrite bind_copy2. destruct (FileSystem.copy2 _ _ _); [done|]. apply IH.
Qed.



Lemma found_nonempty args fs :
  dense_masks_found args fs ≠ [] →
  ∃ d, dense_masks_dir args = Some d ∧ FileSystem.path_exists fs d = true
       ∧ dense_masks_found args fs = FileSystem.glob fs d ("*." +:+ mask_ext args).
Proof.
  unfold dense_masks_found. destruct (dense_masks_dir args) as [d|]; [|done].
  destruct (FileSystem.path_exists fs d) eqn:E; [|done]. intros _. by exists d.
Qed.

Lemma masks_path_nonempty args : brush_masks_path args ≠ [].
Proof. unfold brush_masks_path, PurePath.div. by destruct (brush_data_path args). Qed.

Lemma provide_dense_masks_nothing args w :
  dense_masks_found args (w_fs w) = [] →
  ∃ lvl msg, lvl ≠ ERROR ∧ provide_dense_masks args w = Normal () (emit (Log lvl msg) w).
Proof.
  unfold dense_masks_found, provide_dense_masks.
  destruct (dense_masks_dir args) as [d|]; [|by eexists INFO, _].
  mrun. destruct (FileSystem.path_exists (w_fs w) d); mrun; [|by eexists WARNING, _].
  intros ->. by eexists WARNING, _.
Qed.

Lemma provide_dense_masks_started args w d f l :
  dense_masks_dir args = Some d → FileSystem.path_exists (w_fs w) d = true →
  FileSystem.glob (w_fs w) d ("*." +:+ mask_ext args) = f :: l →
  provide_dense_masks args w
  = match FileSystem.mkdir_flat true (w_fs w) (brush_masks_path args) with
    | inr fs' =>
        bind (for_each (f :: l)
                (λ mask_file,
                   copy2 mask_file (brush_masks_path args </> PurePath.name mask_file)))
          (λ _, logger INFO ("Brush masks ready: "
                               +:+ Str.str_int (Z.of_nat (length (f :: l)))
                               +:+ " file(s) copied."))
          (set_fs fs'
             (emit (Mkdir (brush_masks_path args) false true)
                (emit (Log INFO ("Copying undistorted masks into dataset for Brush -> "
                                   +:+ PurePath.str (brush_masks_path args))) w)))
    | inl e =>
        Uncaught e
          (emit (Mkdir (brush_masks_path args) false true)
             (emit (Log INFO ("Copying undistorted masks into dataset for Brush -> "
                                +:+ PurePath.str (brush_masks_path args))) w))
    end.
Proof.
  intros Hd Hex Hglob. unfold provide_dense_masks. rewrite Hd. mrun. rewrite Hex.
  mrun. rewrite Hglob. mrun. rewrite bind_mkdir. by cbn [FileSystem.mkdir].
Qed.

Lemma provide_dense_masks_no_exit args w c w' :
  provide_dense_masks args w ≠ SysExit c w'.
Proof.
  destruct (dense_masks_found args (w_fs w)) as [|f0 l0] eqn:Efound.
  - destruct (provide_dense_masks_nothing args w Efound) as (lvl & msg & _ & ->). done.
  - destruct (found_nonempty args (w_fs w)) as (d & Hd & Hex & Hfound); [by rewrite Efound|].
    rewrite Efound in Hfound. symmetry in Hfound.
    rewrite (provide_dense_masks_started args w d f0 l0 Hd Hex Hfound).
    destruct (FileSystem.mkdir_flat _ _ _) as [e|fs2]; [done|]. unfold bind.
    destruct (for_each _ _ _) as [[] w2|c2 w2|e2 w2] eqn:Ef; try done.
    by apply for_each_copy_no_exit in Ef.
Qed.




(** ** Skipping Brush *)

Lemma before_masks_Normal sys args w w6 :
  before_masks sys args w = Normal () w6 →
  ∃ m fs1 fs2 fs3 fs4 evs,
    w_trace w6 = w_trace w ++ evs
    ∧ invocations evs
      = [ mkInvocation (cmd_feature args m) None (Returned 0) fs1;
          mkInvocation (cmd_match args) None (Returned 0) fs2;
          mkInvocation (cmd_mapper args) None (Returned 0) fs3;
          mkInvocation (cmd_undistort args) None (Returned 0) fs4 ].
Proof.
  intros H. unfold before_masks, before_undistort, before_mapper in H.
  apply bind_Normal_inv in H as ([] & w5 & H & H6).
  apply bind_Normal_inv in H as ([] & w4 & H & H5).
  apply bind_Normal_inv in H as ([] & w1 & H1 & H).
  apply bind_Normal_inv in H as (m & w2 & H2 & H).
  apply bind_Normal_inv in H as ([] & w3 & H3 & H4).
  apply (quiet_Normal _ _ _ _ (quiet_checks_and_setup args)) in H1
    as (_ & e1 & T1 & I1).
  apply (quiet_Normal _ _ _ _ (quiet_auto_mask_detection args)) in H2
    as (_ & e2 & T2 & I2).
  apply feature_extraction_Normal in H3 as (_ & e3 & T3 & I3).
  apply matching_Normal in H4 as (_ & e4 & T4 & I4).
  apply sparse_reconstruction_Normal in H5 as (_ & _ & e5 & T5 & I5).
  apply undistort_Normal in H6 as (_ & _ & _ & e6 & T6 & I6).
  exists m, (w_fs w3), (w_fs w4), (w_fs w5), (w_fs w6),
    (e1 ++ e2 ++ e3 ++ e4 ++ e5 ++ e6).
  split.
  - rewrite T6, T5, T4, T3, T2, T1. by rewrite <- !app_assoc.
  - by rewrite !invocations_app, I1, I2, I3, I4, I5, I6.
Qed.

(** C9, as amended: with [run_brush] 0 the Brush stage does nothing at
    all, so no look-up of the Brush binary, no [brush_exports] directory
    and no Brush process; a run that passed the checks after the
    undistorter has started exactly the four COLMAP programs, each of
    which returned 0, and no other; it then either dies of an exception
    raised while copying the dense masks, with status 1, or returns,
    with status 0, [DONE] being all it logs after the copy; it returns
    whenever the copy has nothing to copy. *)
Theorem brush_stage_skipped sys args w :
  run_brush args = 0 →
  (∀ w7, brush_training sys args w7 = Normal () w7)
  ∧ (∀ w6,
       before_masks sys args w = Normal () w6 →
       (∃ m fs1 fs2 fs3 fs4,
          invocations (since w (main sys args w))
          = [ mkInvocation (cmd_feature args m) None (Returned 0) fs1;
              mkInvocation (cmd_match args) None (Returned 0) fs2;
              mkInvocation (cmd_mapper args) None (Returned 0) fs3;
              mkInvocation (cmd_undistort args) None (Returned 0) fs4 ])
       ∧ ((∃ e w7, provide_dense_masks args w6 = Uncaught e w7
                   ∧ main sys args w = Uncaught e w7
                   ∧ exit_status (main sys args w) = 1)
          ∨ (∃ w7, provide_dense_masks args w6 = Normal () w7
                   ∧ main sys args w = Normal () (emit (Log INFO "DONE") w7)
                   ∧ exit_status (main sys args w) = 0
                   ∧ since w7 (main sys args w) = [Log INFO "DONE"])))
  ∧ (∀ w6,
       before_masks sys args w = Normal () w6 →
       dense_masks_found args (w_fs w6) = [] →
       completes (main sys args w) ∧ exit_status (main sys args w) = 0
       ∧ length (invocations (since w (main sys args w))) = 4%nat).
Proof.
  intros Hrun. assert (run_brush args ≠ 1) as Hne by (rewrite Hrun; done).
  assert (∀ w6 w7, before_masks sys args w = Normal () w6 →
                   provide_dense_masks args w6 = Normal () w7 →
                   main sys args w = Normal () (emit (Log INFO "DONE") w7)) as Hdone.
  { intros w6 w7 Hreach Hm. rewrite main_from_masks, (bind_Normal _ _ _ _ _ Hreach).
    rewrite (bind_Normal _ _ _ _ _ Hm).
    by rewrite (bind_Normal _ _ _ _ _ (brush_training_skipped sys args w7 Hne)). }
  assert (∀ w6, before_masks sys args w = Normal () w6 →
                ∃ m fs1 fs2 fs3 fs4,
                  invocations (since w (main sys args w))
                  = [ mkInvocation (cmd_feature args m) None (Returned 0) fs1;
                      mkInvocation (cmd_match args) None (Returned 0) fs2;
                      mkInvocation (cmd_mapper args) None (Returned 0) fs3;
                      mkInvocation (cmd_undistort args) None (Returned 0) fs4 ]) as Hfour.
  { intros w6 Hreach.
    destruct (before_masks_Normal _ _ _ _ Hreach)
      as (m & fs1 & fs2 & fs3 & fs4 & e6 & T6 & I6).
    exists m, fs1, fs2, fs3, fs4.
    destruct (quiet_provide_dense_masks args w6) as (_ & e7 & T7 & F7).
    rewrite main_from_masks, (bind_Normal _ _ _ _ _ Hreach).
    destruct (provide_dense_masks args w6) as [[] w7|c w7|e w7] eqn:Hm; simpl in T7.
    - rewrite (bind_Normal _ _ _ _ _ Hm).
      rewrite (bind_Normal _ _ _ _ _ (brush_training_skipped sys args w7 Hne)).
      rewrite (since_app w _ (e6 ++ e7 ++ [Log INFO "DONE"])).
      + rewrite !invocations_app, I6, (invocations_not_spawn _ F7). done.
      + unfold logger. simpl. rewrite T7, T6. by rewrite <- !app_assoc.
    - by apply provide_dense_masks_no_exit in Hm.
    - rewrite (bind_Uncaught _ _ _ _ _ Hm).
      rewrite (since_app w _ (e6 ++ e7)).
      + rewrite !invocations_app, I6, (invocations_not_spawn _ F7). done.
      + simpl. rewrite T7, T6. by rewrite <- !app_assoc. }
  split_and!.
  - intros w7. by apply brush_training_skipped.
  - intros w6 Hreach. split; [by apply (Hfour w6)|].
    destruct (provide_dense_masks args w6) as [[] w7|c w7|e w7] eqn:Hm.
    + right. exists w7. pose proof (Hdone w6 w7 Hreach Hm) as Hmain.
      split_and!; try done.
      * by rewrite Hmain.
      * rewrite Hmain. by trace_simpl.
    + by apply provide_dense_masks_no_exit in Hm.
    + left. exists e, w7. split; [done|].
      assert (main sys args w = Uncaught e w7) as ->; [|done].
      rewrite main_from_masks, (bind_Normal _ _ _ _ _ Hreach).
      by apply bind_Uncaught.
  - intros w6 Hreach Hnone.
    destruct (provide_dense_masks_nothing args w6 Hnone) as (lvl & msg & _ & Hm).
    pose proof (Hdone w6 _ Hreach Hm) as Hmain.
    destruct (Hfour _ Hreach) as (m & fs1 & fs2 & fs3 & fs4 & ->).
    rewrite Hmain. split_and!; try done. by eexists _, _.
Qed.

(** The demo command line with [--run_brush 0]: the run returns with
    status 0 after four invocations. *)
Lemma brush_stage_skipped_witness :
  exit_status (main Demo.sys Demo.args_no_brush Demo.world) = 0
  ∧ brush_training Demo.sys Demo.args_no_brush Demo.world = Normal () Demo.world.
Proof.
  destruct (brush_stage_skipped Demo.sys Demo.args_no_brush Demo.world eq_refl)
    as (Hskip & Hrun & _).
  split; [|apply Hskip].
  destruct (Hrun (final (before_masks Demo.sys Demo.args_no_brush Demo.world)))
    as [_ [(e & w7 & Hm & _)|(w7 & _ & _ & Hs & _)]].
  - compute_done.
  - assert (provide_dense_masks Demo.args_no_brush
              (final (before_masks Demo.sys Demo.args_no_brush Demo.world))
            ≠ Uncaught e w7) as Hne; [|by destruct Hne].
    assert (provide_dense_masks Demo.args_no_brush
              (final (before_masks Demo.sys Demo.args_no_brush Demo.world))
            = Normal () (final (provide_dense_masks Demo.args_no_brush
                (final (before_masks Demo.sys Demo.args_no_brush Demo.world))))) as ->
      by compute_done.
    discriminate.
  - exact Hs.
Defined.

(** C9 as stated fails: with [--run_brush 0] and a directory named like a
    mask among the dense masks, the run passes the checks after the
    undistorter and then dies of [IsADirectoryError] in the copy of the
    masks, which comes before the Brush stage: four invocations, and
    status 1, not 0. *)
Lemma skipped_brush_counterexample :
  run_brush Demo.args_no_brush = 0
  ∧ completes (before_masks Demo.sys Demo.args_no_brush
                 (mkWorld DemoEdges.fs_directory_among_masks ∅ []))
  ∧ main Demo.sys Demo.args_no_brush (mkWorld DemoEdges.fs_directory_among_masks ∅ [])
    = Uncaught IsADirectoryError
        (final (main Demo.sys Demo.args_no_brush
                  (mkWorld DemoEdges.fs_directory_among_masks ∅ [])))
  ∧ exit_status (main Demo.sys Demo.args_no_brush
                   (mkWorld DemoEdges.fs_directory_among_masks ∅ [])) = 1
  ∧ length (invocations
              (since (mkWorld DemoEdges.fs_directory_among_masks ∅ [])
                 (main Demo.sys Demo.args_no_brush
                    (mkWorld DemoEdges.fs_directory_among_masks ∅ [])))) = 4%nat.
Proof.
  split_and!; try compute_done.
  exists (), (final (before_masks Demo.sys Demo.args_no_brush
                       (mkWorld DemoEdges.fs_directory_among_masks ∅ []))).
  compute_done.
Qed.

(** * Further properties of the script *)

(** ** The invocations of any run, completed or not *)

Lemma removelast_app_Forall {A} (P : A → Prop) (l1 l2 : list A) :
  Forall P l1 → Forall P (removelast l2) → Forall P (removelast (l1 ++ l2)).
Proof.
  intros H1 H2. destruct l2 as [|x l2].
  - rewrite app_nil_r. clear H2. induction H1 as [|y l Hy Hl IH]; [done|].
    destruct l; [constructor|]. simpl in *. by constructor.
  - rewrite removelast_app by done. by apply Forall_app.
Qed.

Lemma staged_bind {A B} L1 L2 (m : M A) (k : A → M B) :
  staged L1 m → (∀ a, staged L2 (k a)) → staged (λ e, L1 e ++ L2 e) (bind m k).
Proof.
  intros Hm Hk w. destruct (Hm w) as (V1 & e1 & T1 & P1 & R1 & C1). unfold bind.
  destruct (m w) as [a w1|c w1|e w1] eqn:Em; simpl in *.
  - destruct C1 as [C1 Z1]; [by eexists _, _|].
    destruct (Hk a w1) as (V2 & e2 & T2 & P2 & R2 & C2).
    split; [congruence|]. exists (e1 ++ e2). rewrite T2, T1, app_assoc.
    split; [done|]. rewrite invocations_app, fmap_app, C1, <- V1.
    split_and!.
    + by apply prefix_app.
    + by apply removelast_app_Forall.
    + intros Hc. destruct (C2 Hc) as [C2' Z2]. rewrite C2'.
      split; [done|]. by apply Forall_app.
  - split; [done|]. exists e1. split_and!; try done.
    + by apply prefix_app_r.
    + by intros (? & ? & ?).
  - split; [done|]. exists e1. split_and!; try done.
    + by apply prefix_app_r.
    + by intros (? & ? & ?).
Qed.

Lemma staged_quiet {A} (m : M A) : quiet m → staged (λ _, []) m.
Proof.
  intros H w. destruct (H w) as (V & evs & T & F). split; [done|].
  exists evs. rewrite (invocations_not_spawn _ F). by split_and!.
Qed.

Lemma staged_weaken {A} L L' (m : M A) :
  (∀ e, L e = L' e) → staged L m → staged L' m.
Proof.
  intros HL H w. destruct (H w) as (V & evs & T & P & R & C). split; [done|].
  exists evs. rewrite <- HL. by split_and!.
Qed.

(** A child started by [run_command], followed by steps that start
    nothing. *)
Lemma staged_run_command sys cmd env :
  staged (λ _, [(cmd, env)]) (run_command sys cmd true env).
Proof.
  intros w. run_child.
  all: split; [done|]; eexists; split;
    [cbn [w_trace final emit set_fs]; by rewrite <- ?app_assoc|].
  all: cbn [app invocations omap invocation_of fmap list_fmap started inv_cmd inv_env
            removelast].
  all: split_and!; try done; try (by intros (? & ? & ?)).
  intros _. split; [done|]. by repeat constructor.
Qed.

Lemma staged_feature_extraction sys args m :
  staged (λ _, [(cmd_feature args m, None)]) (feature_extraction sys args m).
Proof.
  unfold feature_extraction.
  apply (staged_bind (λ _, []) (λ _, [(cmd_feature args m, None)]));
    [apply staged_quiet, quiet_logger|intros _].
  apply (staged_bind (λ _, [(cmd_feature args m, None)]) (λ _, []));
    [apply staged_run_command|intros _]. apply staged_quiet, quiet_ret.
Qed.

Lemma staged_matching sys args :
  staged (λ _, [(cmd_match args, None)]) (matching sys args).
Proof.
  unfold matching.
  apply (staged_bind (λ _, []) (λ _, [(cmd_match args, None)]));
    [apply staged_quiet, quiet_logger|intros _].
  apply (staged_bind (λ _, [(cmd_match args, None)]) (λ _, []));
    [apply staged_run_command|intros _]. apply staged_quiet, quiet_ret.
Qed.

Lemma staged_sparse_reconstruction sys args :
  staged (λ _, [(cmd_mapper args, None)]) (sparse_reconstruction sys args).
Proof.
  unfold sparse_reconstruction.
  apply (staged_bind (λ _, []) (λ _, [(cmd_mapper args, None)]));
    [apply staged_quiet, quiet_logger|intros _].
  apply (staged_bind (λ _, [(cmd_mapper args, None)]) (λ _, []));
    [apply staged_run_command|intros _]. apply staged_quiet. quiet_tac.
Qed.

Lemma staged_undistort sys args :
  staged (λ _, [(cmd_undistort args, None)]) (undistort sys args).
Proof.
  unfold undistort.
  apply (staged_bind (λ _, []) (λ _, [(cmd_undistort args, None)]));
    [apply staged_quiet, quiet_logger|intros _].
  apply (staged_bind (λ _, [(cmd_undistort args, None)]) (λ _, []));
    [apply staged_run_command|intros _]. apply staged_quiet. quiet_tac.
Qed.

Lemma staged_brush_training sys args :
  staged (λ e, if bool_decide (run_brush args = 1)
               then [ (cmd_brush args, Some (brush_env args e)) ] else [])
    (brush_training sys args).
Proof.
  intros w. unfold brush_training. case_bool_decide.
  2:{ split; [done|]. exists []. rewrite app_nil_r. by split_and!. }
  mrun. destruct (which _ _ _); mrun.
  2: destruct (FileSystem.path_exists _ _); mrun.
  all: try rewrite bind_mkdir; mrun; try destruct (FileSystem.mkdir _ _ _ _); mrun.
  all: try (destruct (truthy _); mrun; unfold bind; run_child).
  all: mrun; split; [done|]; eexists; split; [by rewrite <- ?app_assoc|].
  all: cbn [app invocations omap invocation_of fmap list_fmap started inv_cmd inv_env
            removelast].
  all: split_and!; try done; try (by intros (? & ? & ?)); try apply prefix_nil.
  all: intros _; split; [done|]; by repeat constructor.
Qed.

Lemma staged_pipeline_from sys args m : staged (plan args m) (pipeline_from sys args m).
Proof.
  unfold pipeline_from, plan.
  eapply staged_weaken; cycle 1.
  - eapply staged_bind; [apply staged_feature_extraction|intros _].
    eapply staged_bind; [apply staged_matching|intros _].
    eapply staged_bind; [apply staged_sparse_reconstruction|intros _].
    eapply staged_bind; [apply staged_undistort|intros _].
    eapply staged_bind; [apply staged_quiet, quiet_provide_dense_masks|intros _].
    eapply staged_bind; [apply staged_brush_training|intros _].
    apply staged_quiet, quiet_logger.
  - intros e. simpl. by rewrite app_nil_r.
Qed.

Lemma main_pipeline_from sys args w :
  main sys args w
  = bind (checks_and_setup args)
      (λ _, bind (auto_mask_detection args) (pipeline_from sys args)) w.
Proof. reflexivity. Qed.

(** X1: in every run, whatever its outcome, the programs started are an
    initial segment of feature_extractor, exhaustive_matcher, mapper,
    image_undistorter and (with [run_brush] 1) Brush, each with the
    command line and the environment built for it; every invocation but
    the last returned 0; and the run returns only if the whole sequence
    was carried out and every invocation returned 0. *)
Theorem invocations_follow_the_plan sys args w :
  ∃ m,
    (m = [] ∨ ∃ d, masks_dir args = Some d
                   ∧ m = ["--ImageReader.mask_path"; PurePath.str d])
    ∧ started <$> invocations (since w (main sys args w))
      `prefix_of` plan args m (w_environ w)
    ∧ Forall returned_zero (removelast (invocations (since w (main sys args w))))
    ∧ (completes (main sys args w) →
       started <$> invocations (since w (main sys args w)) = plan args m (w_environ w)
       ∧ Forall returned_zero (invocations (since w (main sys args w)))).
Proof.
  assert (∀ (o : Outcome unit),
            (∃ evs, w_trace (final o) = w_trace w ++ evs ∧ Forall not_spawn evs) →
            ¬ completes o →
            ∃ m, (m = [] ∨ ∃ d, masks_dir args = Some d
                               ∧ m = ["--ImageReader.mask_path"; PurePath.str d])
                 ∧ started <$> invocations (since w o) `prefix_of` plan args m (w_environ w)
                 ∧ Forall returned_zero (removelast (invocations (since w o)))
                 ∧ (completes o →
                    started <$> invocations (since w o) = plan args m (w_environ w)
                    ∧ Forall returned_zero (invocations (since w o)))) as Hquiet.
  { intros o (evs & T & F) Hnc. exists []. rewrite (since_app _ _ _ T).
    rewrite (invocations_not_spawn _ F). split_and!; [by left|apply prefix_nil|done..]. }
  rewrite main_pipeline_from.
  destruct (quiet_checks_and_setup args w) as (V1 & e1 & T1 & F1).
  destruct (checks_and_setup args w) as [[] w1|c w1|e w1] eqn:E1; simpl in *.
  2:{ rewrite (bind_SysExit _ _ _ _ _ E1).
      apply Hquiet; [by exists e1|by intros (? & ? & ?)]. }
  2:{ rewrite (bind_Uncaught _ _ _ _ _ E1).
      apply Hquiet; [by exists e1|by intros (? & ? & ?)]. }
  rewrite (bind_Normal _ _ _ _ _ E1).
  destruct (quiet_auto_mask_detection args w1) as (V2 & e2 & T2 & F2).
  destruct (auto_mask_detection args w1) as [m w2|c w2|e w2] eqn:E2; simpl in *.
  2:{ rewrite (bind_SysExit _ _ _ _ _ E2).
      apply Hquiet; [|by intros (? & ? & ?)]. exists (e1 ++ e2).
      simpl. rewrite T2, T1, app_assoc. split; [done|by apply Forall_app]. }
  2:{ rewrite (bind_Uncaught _ _ _ _ _ E2).
      apply Hquiet; [|by intros (? & ? & ?)]. exists (e1 ++ e2).
      simpl. rewrite T2, T1, app_assoc. split; [done|by apply Forall_app]. }
  rewrite (bind_Normal _ _ _ _ _ E2).
  exists m. split; [by eapply auto_mask_detection_Normal|].
  destruct (staged_pipeline_from sys args m w2) as (V3 & e3 & T3 & P3 & R3 & C3).
  rewrite (since_app w _ (e1 ++ e2 ++ e3))
    by (rewrite T3, T2, T1; by rewrite <- !app_assoc).
  rewrite !invocations_app, (invocations_not_spawn _ F1), (invocations_not_spawn _ F2).
  simpl. by rewrite <- V1, <- V2.
Qed.

(** ** [run_command] beyond its use with [check=True] *)

(** X2: with [check=False] a non-zero return code is not a failure:
    [run_command] logs the command, starts it once and returns the code,
    whatever it is; the only way it exits is a missing executable, with
    status 1. *)
Theorem run_command_unchecked_returns_code sys cmd env w :
  (∀ code fs',
     exec sys (child_started cmd w) cmd (default (w_environ w) env) = Exited code fs' →
     run_command sys cmd false env w
     = Normal code (set_fs fs' (emit (Spawn cmd env (Returned code) fs')
                                  (child_started cmd w))))
  ∧ (∀ c w', run_command sys cmd false env w = SysExit c w' →
             c = 1
             ∧ exec sys (child_started cmd w) cmd (default (w_environ w) env)
               = CannotStart ENOENT).
Proof.
  unfold run_command, bind, logger, subprocess_run, child_started. simpl. split.
  - intros code fs' ->. done.
  - intros c w'. destruct (exec _ _ _ _) as [code fs'|[]]; simpl; try done.
    by intros [= <- _].
Qed.

(** X3: a child that is not started although its executable exists
    ([PermissionError]) is not handled: whatever [check] is, the exception
    leaves [run_command], which logs no error message. *)
Theorem start_permission_error_is_not_caught sys cmd check env w :
  exec sys (child_started cmd w) cmd (default (w_environ w) env) = CannotStart EACCES →
  run_command sys cmd check env w
  = Uncaught PermissionError
      (emit (Spawn cmd env (SpawnFailed PermissionError) (w_fs w)) (child_started cmd w))
  ∧ since w (run_command sys cmd check env w)
    = [ Log INFO ("Running: " +:+ Str.join " " cmd);
        Spawn cmd env (SpawnFailed PermissionError) (w_fs w) ]
  ∧ exit_status (run_command sys cmd check env w) = 1.
Proof.
  intros Hexec.
  assert (run_command sys cmd check env w
          = Uncaught PermissionError
              (emit (Spawn cmd env (SpawnFailed PermissionError) (w_fs w))
                 (child_started cmd w))) as ->.
  { unfold run_command, bind, logger, subprocess_run, child_started in *. simpl.
    simpl in Hexec. by rewrite Hexec. }
  split_and!; [done| |done]. unfold child_started. by trace_simpl.
Qed.

(** ** The check of the Brush binary *)

(** X4: with [run_brush] 1 the Brush binary is looked up first.  When it is
    neither on the search path nor at the given path, the script logs the
    error and exits with 1: no [brush_exports] directory is made and no
    process is started.  When it is found, the next thing the script does
    is to make [brush_exports], parents included. *)
Theorem brush_binary_is_checked_first sys args w :
  run_brush args = 1 →
  let w1 := emit (Log INFO "5/5 BRUSH: train + export") w in
  (which sys w1 (brush_bin args) = false →
   FileSystem.path_exists (w_fs w) (PurePath.of_string (brush_bin args)) = false →
   brush_training sys args w
   = SysExit 1
       (emit (Log ERROR ("BRUSH_BIN not found: " +:+ brush_bin args
                           +:+ ". Ensure it is in PATH or provide full path."))
          (emit (Which (brush_bin args)) w1)))
  ∧ (which sys w1 (brush_bin args) = true
     ∨ FileSystem.path_exists (w_fs w) (PurePath.of_string (brush_bin args)) = true →
     ∃ rest, since w (brush_training sys args w)
             = Log INFO "5/5 BRUSH: train + export" :: Which (brush_bin args)
               :: Mkdir (brush_export_dir args) true true :: rest).
Proof.
  intros Hrun w1. subst w1. unfold brush_training. rewrite bool_decide_true by done.
  mrun. set (w1 := emit (Log INFO "5/5 BRUSH: train + export") w). split.
  - intros -> Hex. mrun. change (w_fs w1) with (w_fs w). rewrite Hex. by mrun.
  - intros Hfound.
    assert (∀ k : World → Outcome unit,
              (∀ w0, ∃ evs, w_trace (final (k w0)) = w_trace w0 ++ evs) →
              ∃ rest,
                since w (bind (mkdir true true (brush_export_dir args)) (λ _, k)
                           (emit (Which (brush_bin args)) w1))
                = Log INFO "5/5 BRUSH: train + export" :: Which (brush_bin args)
                  :: Mkdir (brush_export_dir args) true true :: rest) as Hk.
    { intros k Hext. rewrite bind_mkdir. destruct (FileSystem.mkdir _ _ _ _) as [e|fs'].
      - exists []. unfold w1. by trace_simpl.
      - destruct (Hext (set_fs fs' (emit (Mkdir (brush_export_dir args) true true)
                                      (emit (Which (brush_bin args)) w1))))
          as (evs & T).
        exists evs. apply since_app. rewrite T. unfold w1. simpl.
        by rewrite <- !app_assoc. }
    assert (∀ w0, ∃ evs,
              w_trace (final
                (bind get_environ
                   (λ environ,
                      (if truthy (cubecl_default_device args)
                       then logger INFO ("Using GPU device via CUBECL_DEFAULT_DEVICE="
                                           +:+ default "" (cubecl_default_device args))
                       else ret ());;
                      run_command sys (cmd_brush args) true
                        (Some (brush_env args environ));;
                      logger INFO ("Brush exports: "
                                     +:+ PurePath.str (brush_export_dir args))) w0))
              = w_trace w0 ++ evs) as Hext.
    { intros w0.
      assert (only (λ _, True)
                (bind get_environ
                   (λ environ,
                      (if truthy (cubecl_default_device args)
                       then logger INFO ("Using GPU device via CUBECL_DEFAULT_DEVICE="
                                           +:+ default "" (cubecl_default_device args))
                       else ret ());;
                      run_command sys (cmd_brush args) true
                        (Some (brush_env args environ));;
                      logger INFO ("Brush exports: "
                                     +:+ PurePath.str (brush_export_dir args))))) as Ho.
      { apply only_bind; [apply only_get_environ|intros environ].
        apply only_bind; [destruct (truthy _); [by apply only_logger|apply only_ret]|].
        intros _. apply only_bind; [by apply only_run_command|intros _].
        by apply only_logger. }
      destruct (Ho w0) as (evs & T & _). by exists evs. }
    destruct (which sys w1 (brush_bin args)); mrun.
    + apply Hk, Hext.
    + destruct Hfound as [?|Hex]; [done|]. change (w_fs w1) with (w_fs w).
      rewrite Hex. mrun. apply Hk, Hext.
Qed.

(** A tool that returns 2, run with [check=False]: [run_command] returns 2. *)
Lemma run_command_unchecked_returns_code_witness :
  ∃ w', run_command DemoEdges.sys_returns_2 ["tool"] false None Demo.world
        = Normal 2 w'.
Proof.
  destruct (run_command_unchecked_returns_code DemoEdges.sys_returns_2 ["tool"] None
              Demo.world) as [H _].
  eexists. apply (H 2 (w_fs Demo.world)). reflexivity.
Defined.

Lemma start_permission_error_is_not_caught_witness :
  exit_status (run_command DemoEdges.sys_not_executable ["tool"] true None Demo.world) = 1.
Proof.
  by destruct (start_permission_error_is_not_caught DemoEdges.sys_not_executable
                 ["tool"] true None Demo.world eq_refl) as (_ & _ & ?).
Defined.

(** No [brush] on the search path and none in the current directory. *)
Lemma brush_binary_is_checked_first_witness :
  exit_status (brush_training DemoEdges.sys_no_brush Demo.args Demo.world) = 1.
Proof.
  destruct (brush_binary_is_checked_first DemoEdges.sys_no_brush Demo.args Demo.world
              eq_refl) as [H _].
  rewrite H; [reflexivity|reflexivity|compute_done].
Defined.

(** ** A regular file given as images directory *)

Lemma mkdir_flat_grows exist_ok fs p fs' :
  FileSystem.mkdir_flat exist_ok fs p = inr fs' → grows_by_dirs fs fs'.
Proof.
  unfold FileSystem.mkdir_flat, FileSystem.os_mkdir.
  destruct (FileSystem.stat fs p) as [n|] eqn:E.
  - destruct (negb exist_ok || negb (FileSystem.is_dir fs p))%bool; [done|].
    intros ?; simplify_eq. apply grows_refl.
  - destruct (FileSystem.stat fs (PurePath.parent p)) as [[]|].
    + destruct (negb exist_ok || negb (FileSystem.is_dir fs p))%bool; [done|].
      intros ?; simplify_eq. apply grows_refl.
    + intros ?; simplify_eq. apply grows_insert. by apply stat_None in E as (_ & _ & ?).
    + done.
Qed.

Lemma mkdir_parents_grows n exist_ok fs p fs' :
  FileSystem.mkdir_parents n exist_ok fs p = inr fs' → grows_by_dirs fs fs'.
Proof.
  revert exist_ok fs p fs'. induction n as [|n IH]; intros exist_ok fs p fs';
    cbn [FileSystem.mkdir_parents]; unfold FileSystem.os_mkdir.
  all: destruct (FileSystem.stat fs p) as [nd|] eqn:E.
  all: try (destruct (negb exist_ok || negb (FileSystem.is_dir fs p))%bool; [done|];
            intros ?; simplify_eq; apply grows_refl).
  all: destruct (FileSystem.stat fs (PurePath.parent p)) as [[]|].
  all: try (destruct (negb exist_ok || negb (FileSystem.is_dir fs p))%bool; [done|];
            intros ?; simplify_eq; apply grows_refl).
  all: try (intros ?; simplify_eq; apply grows_insert;
            by apply stat_None in E as (_ & _ & ?)).
  all: case_bool_decide; [done|]; try done.
  destruct (FileSystem.mkdir_parents n true fs (PurePath.parent p)) as [e|fs1] eqn:E1;
    [done|].
  intros E2. eapply grows_trans; [by eapply IH|by eapply mkdir_flat_grows].
Qed.

Lemma mkdir_grows parents exist_ok fs p fs' :
  FileSystem.mkdir parents exist_ok fs p = inr fs' → grows_by_dirs fs fs'.
Proof.
  unfold FileSystem.mkdir. destruct parents;
    [apply mkdir_parents_grows|apply mkdir_flat_grows].
Qed.

Lemma grows_is_file fs fs' q :
  grows_by_dirs fs fs' → FileSystem.is_file fs q = true → FileSystem.is_file fs' q = true.
Proof.
  intros H. unfold FileSystem.is_file.
  destruct (grows_stat _ _ q H) as [->|[-> ->]]; done.
Qed.

Lemma checks_and_setup_Normal args w w' :
  checks_and_setup args w = Normal () w' →
  FileSystem.path_exists (w_fs w) (images_dir args) = true
  ∧ grows_by_dirs (w_fs w) (w_fs w').
Proof.
  unfold checks_and_setup. mrun.
  destruct (FileSystem.path_exists (w_fs w) (images_dir args)); mrun; [|done].
  rewrite bind_mkdir; mrun.
  destruct (FileSystem.mkdir true true _ (project_dir args)) as [|fs1] eqn:E1; [done|].
  rewrite bind_mkdir; mrun.
  destruct (FileSystem.mkdir false true fs1 _) as [|fs2] eqn:E2; [done|].
  rewrite bind_mkdir; mrun.
  destruct (FileSystem.mkdir false true fs2 _) as [|fs3] eqn:E3; [done|].
  unfold logger; mrun. intros ?; simplify_eq. split; [done|]. cbn [w_fs].
  eapply grows_trans; [by eapply mkdir_grows|].
  eapply grows_trans; by eapply mkdir_grows.
Qed.

(** X5: the check of the images directory is a check of existence: a regular
    file passes it.  The script then fails only if a masks directory
    exists, when counting the images raises [NotADirectoryError], which
    nothing catches, before any program is started; with no masks
    directory configured it goes on and hands the file to the feature
    extractor as [--image_path]. *)
Theorem images_path_may_be_a_regular_file sys args w w1 :
  FileSystem.is_file (w_fs w) (images_dir args) = true →
  checks_and_setup args w = Normal () w1 →
  (∀ d, masks_dir args = Some d → FileSystem.path_exists (w_fs w1) d = true →
        main sys args w = Uncaught NotADirectoryError w1
        ∧ exit_status (main sys args w) = 1
        ∧ Forall not_spawn (since w (main sys args w)))
  ∧ (masks_dir args = None →
     let w2 := emit (Log INFO "No COLMAP masks configured/found. Continuing without masks.")
                 w1 in
     main sys args w = pipeline_from sys args [] w2
     ∧ option_at 4 "--image_path" (PurePath.str (images_dir args)) (cmd_feature args [])
     ∧ ∃ r fs, invocations (since w2 (feature_extraction sys args [] w2))
               = [mkInvocation (cmd_feature args []) None r fs]).
Proof.
  intros Hfile Hsetup. pose proof (checks_and_setup_Normal _ _ _ Hsetup) as [_ Hg].
  split.
  - intros d Hd Hex.
    assert (main sys args w = Uncaught NotADirectoryError w1) as Hmain.
    { rewrite main_pipeline_from, (bind_Normal _ _ _ _ _ Hsetup). apply bind_Uncaught.
      unfold auto_mask_detection. rewrite Hd. mrun. rewrite Hex. mrun.
      unfold count_images. rewrite bind_assoc, bind_iterdir.
      pose proof (grows_is_file _ _ _ Hg Hfile) as Hf. unfold FileSystem.iterdir.
      unfold FileSystem.is_file in Hf.
      by destruct (FileSystem.stat (w_fs w1) (images_dir args)) as [[]|]. }
    rewrite Hmain. split_and!; [done..|].
    destruct (quiet_checks_and_setup args w) as (_ & evs & T & F).
    rewrite Hsetup in T. by rewrite (since_app w (Uncaught NotADirectoryError w1) _ T).
  - intros Hd w2. split_and!.
    + rewrite main_pipeline_from, (bind_Normal _ _ _ _ _ Hsetup).
      apply bind_Normal. unfold auto_mask_detection. by rewrite Hd.
    + done.
    + apply feature_extraction_spawns_once.
Qed.

(** The set-up accepts [imgs/a.jpg] as images directory; the masks
    directory of the demo exists, and the run dies of the exception. *)
Lemma images_path_may_be_a_regular_file_witness :
  exit_status (main Demo.sys DemoEdges.args_images_file Demo.world) = 1.
Proof.
  destruct (images_path_may_be_a_regular_file Demo.sys DemoEdges.args_images_file
              Demo.world (final (checks_and_setup DemoEdges.args_images_file Demo.world)))
    as [H _].
  - compute_done.
  - compute_done.
  - destruct (H ["masks"] eq_refl) as (_ & Hs & _); [compute_done|exact Hs].
Defined.

(** ** Copies of the dense masks that cannot succeed *)

Lemma copy2_of_directory fs src dst :
  FileSystem.is_dir fs src = true →
  ∃ e, FileSystem.copy2 fs src dst = inl e
       ∧ (e = SameFileError ∨ e = IsADirectoryError).
Proof.
  intros Hd. unfold FileSystem.copy2. apply is_dir_stat in Hd.
  destruct (_ && _)%bool; [eauto|]. rewrite Hd. eauto.
Qed.

Lemma copy2_keeps_dirs fs src dst fs' q :
  FileSystem.copy2 fs src dst = inr fs' →
  FileSystem.is_dir fs q = true → FileSystem.is_dir fs' q = true.
Proof.
  unfold FileSystem.copy2.
  destruct (_ && _)%bool; [done|].
  destruct (FileSystem.stat fs src) as [[data'|]|]; try done.
  match goal with |- context [FileSystem.stat fs ?d] =>
    generalize d; intros dst';
    destruct (FileSystem.stat fs dst') as [[]|] eqn:Ed;
    destruct (FileSystem.stat fs (PurePath.parent dst')) as [[]|]; try done
  end.
  all: intros Hc; apply (inj inr) in Hc; subst fs'; rewrite !is_dir_stat; intros Hq.
  all: destruct (decide (dst' = q)) as [->|Hne]; [congruence|].
  all: unfold FileSystem.stat in Hq |- *; case_bool_decide; [done|].
  all: by rewrite lookup_insert_ne.
Qed.

Lemma for_each_copy_directory (masks : Path) l f w :
  f ∈ l → FileSystem.is_dir (w_fs w) f = true →
  ∃ e w', for_each l (λ f, copy2 f (masks </> PurePath.name f)) w = Uncaught e w'.
Proof.
  revert w. induction l as [|g l IH]; intros w Hin Hd; [by apply elem_of_nil in Hin|].
  simpl. rewrite bind_copy2.
  destruct (FileSystem.copy2 _ _ _) as [e|fs1] eqn:Hc; [eauto|].
  apply elem_of_cons in Hin as [->|Hin].
  - destruct (copy2_of_directory _ _ (masks </> PurePath.name g) Hd) as (e & He & _).
    congruence.
  - apply IH; [done|]. simpl. by eapply copy2_keeps_dirs.
Qed.

(** X6: an entry of the dense masks directory that the pattern selects and
    that is a directory stops the copy: the step ends with an exception
    that nothing catches.  When that entry is the first one selected and
    [dense/0/masks] can be made, the directory is made, the first copy
    raises and nothing has been copied. *)
Theorem selected_directory_aborts_the_copy args w f :
  f ∈ dense_masks_found args (w_fs w) →
  FileSystem.is_dir (w_fs w) f = true →
  let masks := brush_masks_path args in
  (∃ e w', provide_dense_masks args w = Uncaught e w'
           ∧ exit_status (provide_dense_masks args w) = 1)
  ∧ (∀ l fs1,
       dense_masks_found args (w_fs w) = f :: l →
       FileSystem.mkdir false true (w_fs w) masks = inr fs1 →
       ∃ e, (e = IsADirectoryError ∨ e = SameFileError)
            ∧ provide_dense_masks args w
              = Uncaught e
                  (emit (Copy f (masks </> PurePath.name f))
                     (set_fs fs1
                        (emit (Mkdir masks false true)
                           (emit (Log INFO
                                    ("Copying undistorted masks into dataset for Brush -> "
                                       +:+ PurePath.str masks)) w))))).
Proof.
  intros Hin Hdir masks.
  destruct (dense_masks_found args (w_fs w)) as [|f0 l0] eqn:Efound;
    [by apply elem_of_nil in Hin|].
  destruct (found_nonempty args (w_fs w)) as (d & Hd & Hex & Hfound);
    [by rewrite Efound|].
  rewrite Efound in Hfound. symmetry in Hfound.
  rewrite (provide_dense_masks_started args w d f0 l0 Hd Hex Hfound).
  fold masks. split.
  - destruct (FileSystem.mkdir_flat true (w_fs w) masks) as [e|fs1] eqn:Emk; [by eauto|].
    edestruct (for_each_copy_directory masks (f0 :: l0) f) as (e & w' & Hfe); [done| |].
    2:{ rewrite (bind_Uncaught _ _ _ _ _ Hfe). by eauto. }
    simpl. eapply grows_is_dir; [by eapply mkdir_flat_grows|done].
  - intros l fs1 [= -> ->] Hmk. cbn [FileSystem.mkdir] in Hmk. rewrite Hmk.
    cbn [for_each]. rewrite bind_assoc, bind_copy2. cbn [w_fs set_fs].
    destruct (copy2_of_directory fs1 f (masks </> PurePath.name f)) as (e & -> & He).
    { eapply grows_is_dir; [by eapply mkdir_flat_grows|done]. }
    exists e. split; [tauto|done].
Qed.

(** A directory named like a mask among the dense masks: the step makes
    [dense/0/masks] and dies at the first copy. *)
Lemma selected_directory_aborts_the_copy_witness :
  exit_status (provide_dense_masks Demo.args
                 (mkWorld DemoEdges.fs_directory_entry ∅ [])) = 1.
Proof.
  destruct (selected_directory_aborts_the_copy Demo.args
              (mkWorld DemoEdges.fs_directory_entry ∅ []) ["dmasks"; "old.png"])
    as [(e & w' & _ & Hs) _].
  - compute_done.
  - compute_done.
  - exact Hs.
Defined.

(** X7: masks that already are in [dense/0/masks] cannot be used from there:
    when that directory is given as the directory of the dense masks and
    the pattern selects something in it, the first copy would copy an
    entry onto itself and raises, [SameFileError] for a regular file; the
    step ends with the exception, the file system as it was. *)
Theorem masks_in_place_abort_the_copy args w :
  let masks := brush_masks_path args in
  dense_masks_dir args = Some masks →
  dense_masks_found args (w_fs w) ≠ [] →
  ∃ f l e w',
    dense_masks_found args (w_fs w) = f :: l
    ∧ masks </> PurePath.name f = f
    ∧ provide_dense_masks args w = Uncaught e w'
    ∧ (if FileSystem.is_dir (w_fs w) f then e = IsADirectoryError
       else e = SameFileError)
    ∧ w_fs w' = w_fs w
    ∧ since w (provide_dense_masks args w)
      = [ Log INFO ("Copying undistorted masks into dataset for Brush -> "
                      +:+ PurePath.str masks);
          Mkdir masks false true;
          Copy f f ].
Proof.
  intros masks Hd Hne.
  destruct (found_nonempty args (w_fs w) Hne) as (d & Hd' & Hex & Hfound).
  assert (d = masks) as -> by congruence.
  destruct (dense_masks_found args (w_fs w)) as [|f l] eqn:Efound; [done|].
  symmetry in Hfound.
  assert (f ∈ FileSystem.glob (w_fs w) masks ("*." +:+ mask_ext args)) as Hf
    by (rewrite Hfound; left).
  assert (FileSystem.is_dir (w_fs w) masks = true) as Hdir.
  { revert Hf. unfold FileSystem.glob.
    destruct (FileSystem.is_dir (w_fs w) masks); [done|by intros ?%elem_of_nil]. }
  apply glob_entry in Hf as (Hchild & _ & Hsplit).
  assert (masks </> PurePath.name f = f) as Hself by done.
  assert (FileSystem.path_exists (w_fs w) f = true) as Hfex.
  { unfold FileSystem.children in Hchild.
    apply list_elem_of_filter in Hchild as [_ Hin].
    apply list_elem_of_fmap in Hin as ([q n] & -> & Hin).
    apply elem_of_map_to_list in Hin. unfold FileSystem.path_exists, FileSystem.stat.
    simpl. case_bool_decide; [done|]. by rewrite Hin. }
  assert (∃ e, FileSystem.copy2 (w_fs w) f f = inl e
               ∧ (if FileSystem.is_dir (w_fs w) f then e = IsADirectoryError
                  else e = SameFileError)) as (e & Hcopy & He).
  { unfold FileSystem.copy2. destruct (FileSystem.is_dir (w_fs w) f) eqn:Hfd.
    - rewrite bool_decide_false by (intros E; by apply (div_neq_self f (PurePath.name f))).
      simpl. apply is_dir_stat in Hfd. rewrite Hfd. eauto.
    - rewrite bool_decide_true by done. rewrite Hfex. simpl. eauto. }
  exists f, l, e.
  rewrite (provide_dense_masks_started args w masks f l Hd Hex Hfound).
  fold masks. rewrite (mkdir_flat_existing _ _ Hdir).
  cbn [for_each]. rewrite bind_assoc, bind_copy2. cbn [w_fs set_fs emit].
  rewrite Hself, Hcopy. eexists. split_and!; [done..|].
  by trace_simpl.
Qed.

(** The project of the demo with one mask already in [dense/0/masks]. *)
Lemma masks_in_place_abort_the_copy_witness :
  ∃ w', provide_dense_masks DemoEdges.args_masks_in_place
          (mkWorld DemoEdges.fs_masks_in_place ∅ [])
        = Uncaught SameFileError w'.
Proof.
  destruct (masks_in_place_abort_the_copy DemoEdges.args_masks_in_place
              (mkWorld DemoEdges.fs_masks_in_place ∅ []))
    as (f & l & e & w' & Hfound & _ & Hrun & He & _).
  - reflexivity.
  - compute_done.
  - exists w'. rewrite Hrun. f_equal.
    assert (f = ["proj"; "dense"; "0"; "masks"; "a.png"]) as ->.
    { assert (dense_masks_found DemoEdges.args_masks_in_place
                (w_fs (mkWorld DemoEdges.fs_masks_in_place ∅ []))
              = [["proj"; "dense"; "0"; "masks"; "a.png"]]) as E by compute_done.
      congruence. }
    assert (FileSystem.is_dir (w_fs (mkWorld DemoEdges.fs_masks_in_place ∅ []))
              ["proj"; "dense"; "0"; "masks"; "a.png"] = false) as E by compute_done.
    by rewrite E in He.
Defined.

(** ** The last line of the log *)

Lemma not_done_run_command sys cmd check env :
  only not_done (run_command sys cmd check env).
Proof.
  intros w. unfold run_command, bind, logger, subprocess_run. simpl.
  destruct (exec _ _ _ _) as [code fs'|e]; simpl.
  - destruct (check && negb (code =? 0)%Z)%bool; simpl.
    + eexists [_; _; _]. split; [by rewrite <-!app_assoc|].
      repeat apply Forall_cons_2; try apply Forall_nil_2; by intros [=].
    + eexists [_; _]. split; [by rewrite <-!app_assoc|].
      repeat apply Forall_cons_2; try apply Forall_nil_2; by intros [=].
  - destruct e; simpl.
    + eexists [_; _; _]. split; [by rewrite <-!app_assoc|].
      repeat apply Forall_cons_2; try apply Forall_nil_2; by intros [=].
    + eexists [_; _]. split; [by rewrite <-!app_assoc|].
      repeat apply Forall_cons_2; try apply Forall_nil_2; by intros [=].
Qed.

Ltac not_done_tac :=
  repeat first
    [ apply only_ret
    | apply only_sys_exit
    | apply only_logger; by intros [=]
    | apply only_get_fs
    | apply only_get_environ
    | apply only_path_exists
    | apply only_glob
    | apply only_iterdir
    | apply only_mkdir; by intros [=]
    | apply only_copy2; by intros [=]
    | apply only_shutil_which; by intros [=]
    | apply not_done_run_command
    | apply only_for_each; intros ?
    | apply only_bind; [|intros ?]
    | match goal with
      | |- only _ (if ?b then _ else _) => destruct b
      | |- only _ (match ?x with _ => _ end) => destruct x
      end ].

Lemma done_at_end_bind {A B} (m : M A) (k : A → M B) :
  only not_done m → (∀ a, done_at_end (k a)) → done_at_end (bind m k).
Proof.
  intros Hm Hk w. destruct (Hm w) as (e1 & T1 & F1). unfold bind.
  destruct (m w) as [a w1|c w1|e w1]; simpl in *.
  - destruct (Hk a w1) as (e2 & T2 & H2). exists (e1 ++ e2).
    rewrite T2, T1, app_assoc. split; [done|].
    destruct H2 as [(Hc & evs0 & -> & F0)|(Hc & F2)].
    + left. split; [done|]. exists (e1 ++ evs0). rewrite app_assoc.
      split; [done|]. by apply Forall_app.
    + right. split; [done|]. by apply Forall_app.
  - exists e1. split; [done|]. right. split; [|done]. by intros (? & ? & ?).
  - exists e1. split; [done|]. right. split; [|done]. by intros (? & ? & ?).
Qed.

Lemma done_at_end_main sys args : done_at_end (main sys args).
Proof.
  unfold main, pipeline.
  apply done_at_end_bind; [unfold checks_and_setup; not_done_tac|intros _].
  apply done_at_end_bind;
    [unfold auto_mask_detection, no_colmap_masks, count_images; not_done_tac|intros m].
  apply done_at_end_bind; [unfold feature_extraction; not_done_tac|intros _].
  apply done_at_end_bind; [unfold matching; not_done_tac|intros _].
  apply done_at_end_bind; [unfold sparse_reconstruction; not_done_tac|intros _].
  apply done_at_end_bind; [unfold undistort; not_done_tac|intros _].
  apply done_at_end_bind; [unfold provide_dense_masks; not_done_tac|intros _].
  apply done_at_end_bind; [unfold brush_training; not_done_tac|intros _].
  intros w. exists [Log INFO "DONE"]. split; [done|]. left.
  split; [by eexists _, _|]. by exists [].
Qed.

(** X8: [DONE] is logged exactly by the runs in which [main] returns, and it
    is then the last thing the script does: a run that exits or dies of
    an exception, at whatever stage, does not log it. *)
Theorem done_is_logged_iff_completed sys args w :
  (Log INFO "DONE" ∈ since w (main sys args w) ↔ completes (main sys args w))
  ∧ (completes (main sys args w) →
     last (since w (main sys args w)) = Some (Log INFO "DONE")
     ∧ exit_status (main sys args w) = 0).
Proof.
  destruct (done_at_end_main sys args w) as (evs & T & H).
  rewrite (since_app _ _ _ T).
  destruct H as [(Hc & evs0 & -> & F0)|(Hc & F)].
  - split.
    + split; [done|]. intros _. apply elem_of_app. right. left.
    + intros _. split; [apply last_snoc|]. by destruct Hc as (a & w' & ->).
  - split; [|done]. split; [|done]. intros Hin.
    rewrite Forall_forall in F. exfalso. by apply (F _ Hin).
Qed.

(** ** Counting images and masks *)

(** X9: on an images directory and a masks directory that are directories,
    [count_images] returns the number of regular files with an image
    suffix, and mask discovery warns of fewer masks than images exactly
    when there is a mask and the masks are fewer than the images counted:
    not when there is no mask at all, and not when the masks are at
    least as many as the images, whatever their names. *)
Theorem fewer_masks_warned_iff_fewer args w d :
  masks_dir args = Some d →
  FileSystem.is_dir (w_fs w) d = true →
  FileSystem.is_dir (w_fs w) (images_dir args) = true →
  let n_img := counted_images (w_fs w) (images_dir args) in
  let n_mask := counted_masks args (w_fs w) d in
  count_images (images_dir args) w = Normal n_img w
  ∧ (fewer_masks_warning ∈ since w (auto_mask_detection args w)
     ↔ (0 < n_mask < n_img)%nat).
Proof.
  intros Hd Hmd Himg n_img n_mask.
  assert (FileSystem.path_exists (w_fs w) d = true) as Hex.
  { unfold FileSystem.path_exists. apply is_dir_stat in Hmd. by rewrite Hmd. }
  split.
  { unfold count_images. by rewrite bind_iterdir, (iterdir_is_dir _ _ Himg). }
  unfold auto_mask_detection. rewrite Hd. mrun. rewrite Hex. mrun.
  unfold count_images. rewrite bind_assoc, bind_iterdir, (iterdir_is_dir _ _ Himg).
  mrun. rewrite bind_iterdir, (iterdir_is_dir _ d Hmd). mrun.
  change (length (filter (is_mask args (w_fs w)) (FileSystem.children (w_fs w) d)))
    with n_mask.
  change (length (filter _ (FileSystem.children (w_fs w) (images_dir args))))
    with n_img.
  unfold fewer_masks_warning.
  destruct (Nat.ltb_spec 0 n_mask) as [H0|H0]; mrun.
  - destruct (Nat.ltb_spec 0 n_img) as [H1|H1]; mrun;
      [destruct (Nat.ltb_spec n_mask n_img) as [H2|H2]; mrun|].
    all: trace_simpl; split.
    all: try (intros ?; lia).
    all: try (intros _; right; left).
    all: intros Hin; exfalso; revert Hin.
    all: rewrite !elem_of_cons, elem_of_nil; intros H; decompose [or] H.
    all: first [done|discriminate].
  - trace_simpl. split; [|lia]. rewrite !elem_of_cons, elem_of_nil.
    intros H; decompose [or] H; first [done|discriminate].
Qed.

(** The demo: one mask for two photographs, and the warning is logged. *)
Lemma fewer_masks_warned_iff_fewer_witness :
  fewer_masks_warning ∈ since Demo.world (auto_mask_detection Demo.args Demo.world).
Proof.
  destruct (fewer_masks_warned_iff_fewer Demo.args Demo.world ["masks"])
    as [_ [_ H]]; [reflexivity|compute_done|compute_done|].
  apply H. assert (counted_masks Demo.args (w_fs Demo.world) ["masks"] = 1%nat) as ->
    by compute_done.
  assert (counted_images (w_fs Demo.world) (images_dir Demo.args) = 2%nat) as ->
    by compute_done.
  lia.
Defined.

(** ** What the copy of the dense masks leaves alone *)




(** ** A regular file given as masks directory *)

Lemma auto_mask_detection_on_file args w d :
  masks_dir args = Some d →
  FileSystem.is_file (w_fs w) d = true →
  FileSystem.path_exists (w_fs w) (images_dir args) = true →
  auto_mask_detection args w = Uncaught NotADirectoryError w.
Proof.
  intros Hd Hfile Himg. unfold auto_mask_detection. rewrite Hd. mrun.
  assert (FileSystem.path_exists (w_fs w) d = true) as ->.
  { revert Hfile. unfold FileSystem.is_file, FileSystem.path_exists.
    by destruct (FileSystem.stat (w_fs w) d). }
  mrun. unfold count_images. rewrite bind_assoc, bind_iterdir.
  unfold FileSystem.iterdir at 1. revert Himg. unfold FileSystem.path_exists.
  destruct (FileSystem.stat (w_fs w) (images_dir args)) as [[]|]; [done| |done].
  intros _. mrun. rewrite bind_iterdir. unfold FileSystem.iterdir.
  revert Hfile. unfold FileSystem.is_file.
  by destruct (FileSystem.stat (w_fs w) d) as [[]|].
Qed.

(** X11: the masks directory is only checked for existence too.  When it is
    a regular file no run starts a program or returns: once the set-up
    is through, listing the masks raises [NotADirectoryError], which
    nothing catches. *)
Theorem masks_path_may_not_be_a_regular_file sys args w d :
  masks_dir args = Some d →
  FileSystem.is_file (w_fs w) d = true →
  invocations (since w (main sys args w)) = []
  ∧ ¬ completes (main sys args w)
  ∧ (∀ w1, checks_and_setup args w = Normal () w1 →
           main sys args w = Uncaught NotADirectoryError w1
           ∧ exit_status (main sys args w) = 1).
Proof.
  intros Hd Hfile. rewrite main_pipeline_from.
  destruct (quiet_checks_and_setup args w) as (_ & evs & T & F).
  destruct (checks_and_setup args w) as [[] w1|c w1|e w1] eqn:E1; simpl in T.
  - destruct (checks_and_setup_Normal _ _ _ E1) as [Himg Hg].
    rewrite (bind_Normal _ _ _ _ _ E1).
    rewrite (bind_Uncaught _ _ _ _ _
               (auto_mask_detection_on_file args w1 d Hd
                  (grows_is_file _ _ _ Hg Hfile) (grows_exists _ _ _ Hg Himg))).
    split_and!.
    + rewrite (since_app w (Uncaught NotADirectoryError w1) _ T).
      by apply invocations_not_spawn.
    + by intros (? & ? & ?).
    + by intros ? [= <-].
  - rewrite (bind_SysExit _ _ _ _ _ E1). split_and!; [|by intros (? & ? & ?)|done].
    rewrite (since_app w (SysExit c w1) _ T). by apply invocations_not_spawn.
  - rewrite (bind_Uncaught _ _ _ _ _ E1). split_and!; [|by intros (? & ? & ?)|done].
    rewrite (since_app w (Uncaught e w1) _ T). by apply invocations_not_spawn.
Qed.

(** The demo with one of the photographs given as masks directory. *)
Lemma masks_path_may_not_be_a_regular_file_witness :
  invocations (since Demo.world (main Demo.sys DemoEdges.args_masks_file Demo.world))
  = [].
Proof.
  destruct (masks_path_may_not_be_a_regular_file Demo.sys DemoEdges.args_masks_file
              Demo.world ["imgs"; "a.jpg"]) as [H _]; [reflexivity|compute_done|exact H].
Defined.

(** ** The file operations of the script itself *)

Lemma only_glob_entries {B} P d pat (k : list Path → M B) :
  (∀ l, (∀ f, f ∈ l → f = d </> PurePath.name f) → only P (k l)) →
  only P (bind (glob d pat) k).
Proof.
  intros Hk w. unfold bind, glob. apply Hk. intros f Hf.
  by apply glob_entry in Hf as (_ & _ & ?).
Qed.

Lemma only_for_each_elem {A} P (l : list A) body :
  (∀ x, x ∈ l → only P (body x)) → only P (for_each l body).
Proof.
  induction l as [|x l IH]; intros H; simpl.
  - apply only_ret.
  - apply only_bind; [apply H; left|intros _]. apply IH. intros y Hy. apply H. by right.
Qed.

Ltac own_tac :=
  repeat first
    [ apply only_ret
    | apply only_sys_exit
    | by apply only_logger
    | apply only_get_fs
    | apply only_get_environ
    | apply only_path_exists
    | apply only_iterdir
    | apply only_mkdir; split; [done|set_solver]
    | by apply only_shutil_which
    | by apply only_run_command
    | apply only_bind; [|intros ?]
    | match goal with
      | |- only _ (if ?b then _ else _) => destruct b
      end ].

Lemma own_provide_dense_masks args :
  only (own_operation args) (provide_dense_masks args).
Proof.
  unfold provide_dense_masks. destruct (dense_masks_dir args) as [d|] eqn:Hd;
    [|by apply only_logger].
  apply only_bind; [apply only_path_exists|intros [|]]; [|by apply only_logger].
  apply only_glob_entries. intros l Hl. destruct l as [|f l]; [by apply only_logger|].
  apply only_bind; [by apply only_logger|intros _].
  apply only_bind; [apply only_mkdir; split; [done|set_solver]|intros _].
  apply only_bind; [|intros _; by apply only_logger].
  apply only_for_each_elem. intros x Hx. apply only_copy2. split; [|done].
  exists d. split; [done|]. by apply Hl.
Qed.

Lemma own_main sys args : only (own_operation args) (main sys args).
Proof.
  unfold main, pipeline.
  apply only_bind; [unfold checks_and_setup; own_tac|intros _].
  apply only_bind;
    [unfold auto_mask_detection, no_colmap_masks, count_images|intros m].
  { destruct (masks_dir args); own_tac. }
  apply only_bind; [unfold feature_extraction; own_tac|intros _].
  apply only_bind; [unfold matching; own_tac|intros _].
  apply only_bind; [unfold sparse_reconstruction; own_tac|intros _].
  apply only_bind; [unfold undistort; own_tac|intros _].
  apply only_bind; [apply own_provide_dense_masks|intros _].
  apply only_bind; [unfold brush_training; own_tac|intros _].
  by apply only_logger.
Qed.

(** X12: in every run, whatever its outcome, the script itself makes no
    directory but its five ([project_dir] and [brush_exports] with their
    parents, [sparse], [dense] and [dense/0/masks] without), always with
    [exist_ok=True] and always at or below the project directory, and it
    copies nothing but entries of the directory of the dense masks, each
    to [dense/0/masks] under its own name. *)
Theorem script_file_operations sys args w :
  Forall (own_operation args) (since w (main sys args w))
  ∧ (∀ p parents exist_ok,
       Mkdir p parents exist_ok ∈ since w (main sys args w) →
       project_dir args `prefix_of` p)
  ∧ (∀ src dst,
       Copy src dst ∈ since w (main sys args w) →
       project_dir args `prefix_of` dst ∧ PurePath.name dst = PurePath.name src).
Proof.
  pose proof (only_since _ _ w (own_main sys args)) as H.
  split; [done|]. rewrite Forall_forall in H. split.
  - intros p parents exist_ok Hin. destruct (H _ Hin) as [_ Hp].
    rewrite !elem_of_cons, elem_of_nil in Hp.
    decompose [or] Hp; simplify_eq; try done.
    all: unfold sparse_dir, dense_dir, brush_masks_path, brush_export_dir,
           brush_data_path, dense_dir, PurePath.div.
    all: by repeat apply prefix_app_r.
  - intros src dst Hin. destruct (H _ Hin) as [_ ->]. split.
    + unfold brush_masks_path, brush_data_path, dense_dir, PurePath.div.
      by repeat apply prefix_app_r.
    + unfold PurePath.div. rewrite name_last.
      * by rewrite last_last.
      * intros E. apply (f_equal length) in E. rewrite length_app in E.
        pose proof (masks_path_nonempty args). destruct (brush_masks_path args); [done|].
        simpl in E. lia.
Qed.

(** ** A mask extension with a dot in it *)

Lemma lower_ascii_dot c : Ascii.eqb "." (Str.lower_ascii c) = Ascii.eqb "." c.
Proof. by destruct c as [[] [] [] [] [] [] [] []]. Qed.

Lemma mem_dot_lower s : Str.mem "." (Str.lower s) = Str.mem "." s.
Proof.
  induction s as [|c s IH]; [done|]. cbn [Str.lower Str.mem].
  by rewrite lower_ascii_dot, IH.
Qed.

Lemma substring_all s : substring 0 (String.length s) s = s.
Proof. induction s as [|c s IH]; [done|]. simpl. by rewrite IH. Qed.

Lemma rfind_dot_None s : Str.rfind_dot s = None → Str.mem "." s = false.
Proof.
  induction s as [|c s IH]; [done|]. cbn [Str.rfind_dot Str.mem].
  destruct (Str.rfind_dot s); [done|]. rewrite (Ascii.eqb_sym "." c).
  destruct (Ascii.eqb c "."); [done|]. intros _. by apply IH.
Qed.

Lemma rfind_dot_Some s i :
  Str.rfind_dot s = Some i →
  ∃ t, substring i (String.length s - i) s = String "." t ∧ Str.mem "." t = false.
Proof.
  revert i. induction s as [|c s IH]; intros i; [done|].
  cbn [Str.rfind_dot String.length]. destruct (Str.rfind_dot s) as [j|] eqn:E.
  - intros [= <-]. by apply IH.
  - destruct (Ascii.eqb_spec c "."); [|done]. intros [= <-]. subst c.
    exists s. simpl. rewrite substring_all. split; [done|]. by apply rfind_dot_None.
Qed.

Lemma suffix_one_dot p :
  PurePath.suffix p = ""
  ∨ ∃ t, PurePath.suffix p = String "." t ∧ Str.mem "." t = false.
Proof.
  unfold PurePath.suffix. destruct (Str.rfind_dot (PurePath.name p)) as [i|] eqn:E;
    [|by left].
  destruct (_ && _)%bool; [|by left]. right. by apply rfind_dot_Some.
Qed.

(** X13: a mask extension that contains a dot, such as [jpg.png], is never
    found by COLMAP mask discovery, which compares it with the last
    suffix of a name only: no entry counts as a mask, and discovery
    never returns mask arguments. *)
Theorem dotted_extension_never_matches args :
  Str.mem "." (mask_ext args) = true →
  (∀ fs p, ¬ is_mask args fs p)
  ∧ (∀ w m w', auto_mask_detection args w = Normal m w' → m = []).
Proof.
  intros Hdot.
  assert (∀ fs p, ¬ is_mask args fs p) as Hnever.
  { intros fs p [_ Hs]. rewrite lower_dot in Hs.
    destruct (suffix_one_dot p) as [E|(t & E & Ht)]; rewrite E in Hs; [done|].
    injection Hs as Hs. change ("" +:+ Str.lower (mask_ext args))
      with (Str.lower (mask_ext args)) in Hs.
    apply (f_equal (Str.mem ".")) in Hs. rewrite !mem_dot_lower in Hs. congruence. }
  split; [done|]. intros w m w'. unfold auto_mask_detection, no_colmap_masks.
  destruct (masks_dir args) as [d|]; mrun; [|by intros [= <- _]].
  destruct (FileSystem.path_exists (w_fs w) d); mrun; [|by intros [= <- _]].
  unfold count_images. rewrite bind_assoc, bind_iterdir.
  destruct (FileSystem.iterdir (w_fs w) (images_dir args)) as [e|imgs]; [done|].
  mrun. rewrite bind_iterdir.
  destruct (FileSystem.iterdir (w_fs w) d) as [e|entries]; [done|]. mrun.
  assert (filter (is_mask args (w_fs w)) entries = []) as ->.
  { induction entries as [|q l IH]; [done|].
    rewrite filter_cons_False by apply Hnever. apply IH. }
  simpl. mrun. by intros [= <- _].
Qed.

(** With extension [jpg.png] discovery on the demo finds no mask,
    although the dense masks hold [a.jpg.png], which the pattern of the
    copy selects. *)
Lemma dotted_extension_never_matches_witness :
  (∀ m w', auto_mask_detection DemoEdges.args_dotted_ext Demo.world = Normal m w' →
           m = [])
  ∧ dense_masks_found DemoEdges.args_dotted_ext Demo.fs = [["dmasks"; "a.jpg.png"]].
Proof.
  split; [|compute_done].
  destruct (dotted_extension_never_matches DemoEdges.args_dotted_ext) as [_ H];
    [reflexivity|apply H].
Defined.
